(** * The collision-integral database of Mutation++ (CollisionDBNew.cpp)

    A shallow embedding of [Mutation::Transport::CollisionDBNew]: the
    constructor (tabulation checks, species-pair list, mass factors), the
    group classifier [groupType], the cached accessor [group] and the derived
    quantities [etai], [nDei], [nDij] and [Dim].

    Conventions:
    - C++ [double] is Rocq's primitive binary64 [float]; every arithmetic
      expression keeps the association of the source.
    - C++ [int] values used as container sizes and indices are [nat]; the
      expression [len-2] of [groupType], which can be negative, is a [Z], and
      [size_t] arithmetic on string lengths wraps modulo 2^64.
    - A call returns a [result]: a value, or one of the ways the C++ program
      stops (failed assertion, [exit], parse error, exception), or
      [Undefined] where the C++ standard gives the operation no meaning
      (out-of-range [operator[]], iterator past the end, ...). *)

From Stdlib Require Import ZArith Ascii String PrimFloat FloatOps SpecFloat.
From Stdlib Require Uint63.
From stdpp Require Import gmap strings list sorting.

Set Warnings "-inexact-float".

(** ** Outcomes of a call *)

Inductive result (A : Type) : Type :=
  | Ok (a : A)
  | AssertFail (expr : string)            (* assert(expr) failed: abort() *)
  | Exit (code : Z) (out : list string)   (* lines written to cout, then exit(code) *)
  | ParseError (msg : string)             (* XmlElement::parseCheck failed *)
  | Throw (what : string)                 (* uncaught C++ exception *)
  | Undefined.                            (* undefined behaviour *)

Arguments Ok {A} a.
Arguments AssertFail {A} expr.
Arguments Exit {A} code out.
Arguments ParseError {A} msg.
Arguments Throw {A} what.
Arguments Undefined {A}.

Definition rbind {A B} (r : result A) (f : A -> result B) : result B :=
  match r with
  | Ok a => f a
  | AssertFail e => AssertFail e
  | Exit c o => Exit c o
  | ParseError m => ParseError m
  | Throw w => Throw w
  | Undefined => Undefined
  end.

#[global] Instance result_ret : MRet result := fun A a => Ok a.
#[global] Instance result_bind : MBind result := fun A B f r => rbind r f.

(** [operator[]] of a vector or Eigen array: no meaning out of range. *)
Definition at_index {A} (l : list A) (i : nat) : result A :=
  match l !! i with
  | Some a => Ok a
  | None => Undefined
  end.

(** [for (int i = lo; i < hi; ++i) body]: [for_loop n lo] runs the [n]
    iterations [lo, lo+1, ...]; the state is threaded through the bodies and
    the first body that stops the program stops the loop. *)
Fixpoint for_loop {St : Type} (n : nat) (i : nat)
    (body : nat -> St -> result St) (s : St) : result St :=
  match n with
  | O => Ok s
  | S n' => s' ← body i s; for_loop n' (S i) body s'
  end.

Definition for_range {St : Type} (lo hi : nat)
    (body : nat -> St -> result St) (s : St) : result St :=
  for_loop (hi - lo) lo body s.

(** ** std::string *)

Definition size_t_mod : Z := 2 ^ 64.

(** [s[pos]] for a [const std::string]: the character at [pos] when
    [pos < size()], the null character when [pos == size()], and no meaning
    otherwise.  A negative [int] converted to [size_type] is larger than any
    size, so it is out of range. *)
Definition string_at (s : string) (pos : Z) : result ascii :=
  if (pos <? 0)%Z then Undefined
  else if (pos =? Z.of_nat (String.length s))%Z then Ok Ascii.zero
  else match String.get (Z.to_nat pos) s with
       | Some c => Ok c
       | None => Undefined
       end.

(** [s.substr(pos, n)]: throws [std::out_of_range] when [pos > size()],
    otherwise the characters from [pos], at most [n] of them. *)
Definition substr (s : string) (pos n : Z) : result string :=
  if (Z.of_nat (String.length s) <? pos)%Z then Throw "std::out_of_range"
  else Ok (String.substring (Z.to_nat pos)
             (Z.to_nat (Z.min n (Z.of_nat (String.length s) - pos))) s).

Definition npos : Z := size_t_mod - 1.

(** [a - b] on two [size_t] values: the difference wraps around below zero. *)
Definition size_t_sub (a b : Z) : Z :=
  if (a <? b)%Z then (a - b + size_t_mod)%Z else (a - b)%Z.

(** ** Group types *)

Inductive GroupType : Type := EE | EI | II | IJ | BAD_TYPE.

(** Modelled from the spec: the enumeration [GroupType] is declared in
    CollisionDBNew.h, which is not part of the sources; its enumerators take
    their values in the order in which the spec lists the categories
    ([EE], [EI], [II], [IJ], invalid). *)
Definition GroupType_value (t : GroupType) : Z :=
  match t with
  | EE => 0
  | EI => 1
  | II => 2
  | IJ => 3
  | BAD_TYPE => 4
  end.

Definition GroupType_eqb (a b : GroupType) : bool :=
  (GroupType_value a =? GroupType_value b)%Z.

(** [CollisionDBNew::groupType] *)
Definition groupType (name : string) : result GroupType :=
  let len := Z.of_nat (String.length name) in
  c2 ← string_at name (len - 2);
  if Ascii.eqb c2 "e"%char then
    c1 ← string_at name (len - 1);
    if Ascii.eqb c1 "e"%char then Ok EE
    else if Ascii.eqb c1 "i"%char then Ok EI
    else Ok BAD_TYPE
  else if Ascii.eqb c2 "i"%char then
    c1 ← string_at name (len - 1);
    if Ascii.eqb c1 "i"%char then Ok II
    else if Ascii.eqb c1 "j"%char then Ok IJ
    else Ok BAD_TYPE
  else Ok BAD_TYPE.

(** The classification of a two-character suffix, as a table. *)
Definition suffix_type (a b : ascii) : GroupType :=
  if Ascii.eqb a "e"%char then
    if Ascii.eqb b "e"%char then EE else if Ascii.eqb b "i"%char then EI else BAD_TYPE
  else if Ascii.eqb a "i"%char then
    if Ascii.eqb b "i"%char then II else if Ascii.eqb b "j"%char then IJ else BAD_TYPE
  else BAD_TYPE.

(** A valid group name: [groupType] classifies it, and not as [BAD_TYPE]. *)
Definition valid_name (name : string) (t : GroupType) : Prop :=
  groupType name = Ok t /\ t <> BAD_TYPE.

(** ** double and int *)

Definition INT_MIN : Z := - 2 ^ 31.
Definition INT_MAX : Z := 2 ^ 31 - 1.

(** The integer obtained from a double by discarding its fractional part;
    nothing for an infinity or a NaN. *)
Definition trunc_double (x : float) : option Z :=
  match Prim2SF x with
  | S754_zero _ => Some 0%Z
  | S754_finite s m e =>
      let v := (if 0 <=? e then Z.pos m * 2 ^ e else Z.pos m / 2 ^ (- e))%Z in
      Some (if s then (- v)%Z else v)
  | S754_infinity _ => None
  | S754_nan => None
  end.

(** [int(x)]: truncation toward zero; the conversion has no meaning when the
    truncated value cannot be represented in a (32-bit) [int]. *)
Definition int_of_double (x : float) : result Z :=
  match trunc_double x with
  | Some z => if ((INT_MIN <=? z) && (z <=? INT_MAX))%Z then Ok z else Undefined
  | None => Undefined
  end.

(** An [int] converted to [double] (exact). *)
Definition double_of_int (z : Z) : float :=
  if (z <? 0)%Z then (- of_uint63 (Uint63.of_Z (- z)))%float
  else of_uint63 (Uint63.of_Z z).

(** ** Collaborators: species, thermodynamic state, configuration *)

(** Species.h is not part of the sources; the database reads a species only
    through its molar mass. *)
Record Species : Type := mkSpecies {
  sp_name : string;
  sp_molecularWeight : float
}.

(** The thermodynamic state the database holds by reference: the species
    list and the electron flag are fixed, the two temperatures change between
    calls.  Every operation of the database takes the current state. *)
Record Thermodynamics : Type := mkThermo {
  species : list Species;
  hasElectrons : bool;
  T : float;
  Te : float
}.

Definition nSpecies (th : Thermodynamics) : nat := length (species th).

Definition electrons (th : Thermodynamics) : nat :=
  if hasElectrons th then 1 else 0.

(** Modelled from the spec: [Thermodynamics::nHeavy] is not part of the
    sources; the spec has nHeavy = nSpecies - e, where e = 1 if electrons
    are present and 0 otherwise. *)
Definition nHeavy (th : Thermodynamics) : nat := nSpecies th - electrons th.

(** Modelled from the spec: [Thermodynamics::speciesMw(i)] is not part of
    the sources; it is the molar mass of the species of index [i]. *)
Definition speciesMw (th : Thermodynamics) (i : nat) : result float :=
  s ← at_index (species th) i; Ok (sp_molecularWeight s).

(** The invariant of a thermodynamic state: when electrons are present they
    are a species (the one of index 0), so nHeavy is not negative. *)
Definition thermo_ok (th : Thermodynamics) : Prop :=
  electrons th <= nSpecies th.

(** Two states of the same mixture: only the temperatures may differ. *)
Definition same_mixture (th th' : Thermodynamics) : Prop :=
  species th = species th' /\ hasElectrons th = hasElectrons th'.

(** The root element of the transport database with its optional attributes,
    already parsed (XMLite is not part of the sources). *)
Record XmlElement : Type := mkXml {
  attr_tabulate : option bool;
  attr_Tmin : option float;
  attr_Tmax : option float;
  attr_dT : option float
}.

(** Modelled from the spec: [XmlElement::getAttribute(name, value, default)]
    is not part of the sources; the attributes are optional and take the
    default when absent. *)
Definition getAttribute {A} (attr : option A) (default : A) : A :=
  match attr with
  | Some a => a
  | None => default
  end.

(** Modelled from the spec: [XmlElement::parseCheck(test, message)] is not
    part of the sources; a violation aborts the construction with the
    message. *)
Definition parseCheck (test : bool) (msg : string) : result unit :=
  if test then Ok tt else ParseError msg.

(** A species pair, built from two species and the database root. *)
Record CollisionPairNew : Type := mkPair {
  pair_sp1 : Species;
  pair_sp2 : Species;
  pair_xml : XmlElement
}.

(** The interface of [CollisionGroup] (CollisionGroup.h/.cpp are not part of
    the sources): construction from the tabulation parameters,
    [manage(first, last, &CollisionPairNew::get, kind)] on a range of pairs,
    [update(T, thermo)] and the value array. *)
Class CollisionGroup (G : Type) : Type := {
  CollisionGroup_new : bool -> float -> float -> float -> G;
  manage : list CollisionPairNew -> string -> G -> G;
  update : float -> Thermodynamics -> G -> G;
  array : G -> list float
}.

(** ** The database *)

(** [m_groups] is a [std::map<string, CollisionGroup>]: a node of the map
    never moves, so a reference to a group is the location of its node.
    [m_groups] maps a name to the location and [m_group_nodes] is the store
    of the nodes. *)
Record CollisionDBNew (G : Type) : Type := mkDB {
  m_tabulate : bool;
  m_table_min : float;
  m_table_max : float;
  m_table_del : float;
  m_pairs : list CollisionPairNew;
  m_groups : gmap string nat;
  m_group_nodes : list G;
  m_etai : list float;
  m_etafac : list float;
  m_nDei : list float;
  m_Deifac : list float;
  m_nDij : list float;
  m_Dijfac : list float;
  m_Dim : list float
}.

Arguments mkDB {G}.
Arguments m_tabulate {G}.
Arguments m_table_min {G}.
Arguments m_table_max {G}.
Arguments m_table_del {G}.
Arguments m_pairs {G}.
Arguments m_groups {G}.
Arguments m_group_nodes {G}.
Arguments m_etai {G}.
Arguments m_etafac {G}.
Arguments m_nDei {G}.
Arguments m_Deifac {G}.
Arguments m_nDij {G}.
Arguments m_Dijfac {G}.
Arguments m_Dim {G}.

Definition set_groups {G} (groups : gmap string nat) (nodes : list G)
    (db : CollisionDBNew G) : CollisionDBNew G :=
  mkDB (m_tabulate db) (m_table_min db) (m_table_max db) (m_table_del db)
    (m_pairs db) groups nodes (m_etai db) (m_etafac db) (m_nDei db)
    (m_Deifac db) (m_nDij db) (m_Dijfac db) (m_Dim db).

Definition set_etai {G} (v : list float) (db : CollisionDBNew G) : CollisionDBNew G :=
  mkDB (m_tabulate db) (m_table_min db) (m_table_max db) (m_table_del db)
    (m_pairs db) (m_groups db) (m_group_nodes db) v (m_etafac db) (m_nDei db)
    (m_Deifac db) (m_nDij db) (m_Dijfac db) (m_Dim db).

Definition set_Dim {G} (v : list float) (db : CollisionDBNew G) : CollisionDBNew G :=
  mkDB (m_tabulate db) (m_table_min db) (m_table_max db) (m_table_del db)
    (m_pairs db) (m_groups db) (m_group_nodes db) (m_etai db) (m_etafac db)
    (m_nDei db) (m_Deifac db) (m_nDij db) (m_Dijfac db) v.

(** Assignment to an element of an Eigen array: no meaning out of range. *)
Definition array_set (a : list float) (i : nat) (v : float) : result (list float) :=
  if decide (i < length a) then Ok (<[i := v]> a) else Undefined.

(** Coefficient-wise [s * a / b] on Eigen arrays: the scalar multiplies every
    coefficient of [a], and the quotient is coefficient by coefficient; the
    two arrays must have the same size. *)
Definition array_scale (s : float) (a : list float) : list float :=
  (fun x => s * x)%float <$> a.

Definition array_div (a b : list float) : result (list float) :=
  if decide (length a = length b)
  then Ok (zip_with PrimFloat.div a b)
  else Undefined.

(** ** Specification vocabulary *)

(** The triangular enumeration of index pairs: outer index [i] ascending,
    inner index [j] ascending from [i]. *)
Definition pair_row (n i : nat) : list (nat * nat) := pair i <$> seq i (n - i).

Definition pair_indices (n : nat) : list (nat * nat) :=
  flat_map (pair_row n) (seq 0 n).

(** Lexicographic order on index pairs. *)
Definition lex_lt (p q : nat * nat) : Prop :=
  p.1 < q.1 \/ (p.1 = q.1 /\ p.2 < q.2).

(** [p] is the pair of the species of indices [ij.1] and [ij.2]. *)
Definition is_pair (root : XmlElement) (sp : list Species)
    (p : CollisionPairNew) (ij : nat * nat) : Prop :=
  sp !! ij.1 = Some (pair_sp1 p) /\ sp !! ij.2 = Some (pair_sp2 p) /\ pair_xml p = root.

Section CollisionDB.

Context {G : Type} `{!CollisionGroup G}.

(** The physical constants of the Constants header, which is not part of the
    sources. *)
Variables (PI RU TWOPI SQRT2 : float).

(** The content of an Eigen array that was sized but not yet written. *)
Variable indeterminate : float.

(** Whether the program is compiled with NDEBUG, which removes [assert]. *)
Variable NDEBUG : bool.

Definition c_assert (test : bool) (expr : string) : result unit :=
  if NDEBUG then Ok tt else if test then Ok tt else AssertFail expr.

(** *** The constructor *)

(** The checks on the table data (lines 68-77). *)
Definition check_table (tabulate : bool) (table_min table_max table_del : float)
    : result unit :=
  if tabulate then
    _ ← parseCheck (0.0 <? table_min)%float "Tmin must be positive.";
    _ ← parseCheck (0.0 <? table_max)%float "Tmax must be positive.";
    _ ← parseCheck (0.0 <? table_del)%float "dT must be positive.";
    _ ← parseCheck (table_min <? table_max)%float "Tmin must be > Tmax.";
    let size := ((table_max - table_min) / table_del)%float in
    n ← int_of_double size;
    parseCheck (PrimFloat.abs (size - double_of_int n) / size <? 1.0e-15)%float
      "(Tmax - Tmin)/dT must be a positive whole number."
  else Ok tt.

(** The list of species pairs (lines 80-83). *)
Definition make_pairs (root : XmlElement) (sp : list Species)
    : result (list CollisionPairNew) :=
  for_range 0 (length sp) (fun i pairs =>
    for_range i (length sp) (fun j pairs =>
      si ← at_index sp i;
      sj ← at_index sp j;
      Ok (pairs ++ [mkPair si sj root])) pairs) [].

(** The eta factors (lines 86-88). *)
Definition make_etafac (th : Thermodynamics) (etafac : list float)
    : result (list float) :=
  let k := nSpecies th - nHeavy th in
  for_range k (nSpecies th) (fun i etafac =>
    mw ← speciesMw th i;
    array_set etafac (i - k) (5 / 16 * PrimFloat.sqrt (PI * RU * mw))%float) etafac.

(** The nDei factors (lines 91-95). *)
Definition make_Deifac (th : Thermodynamics) (Deifac : list float)
    : result (list float) :=
  let k := nSpecies th - nHeavy th in
  if (0 <? k)%nat then
    Deifac ← for_range 0 (nSpecies th) (fun i Deifac =>
      mw0 ← speciesMw th 0;
      array_set Deifac i (3 / 16 * PrimFloat.sqrt (TWOPI * RU / mw0))%float) Deifac;
    d0 ← at_index Deifac 0;
    array_set Deifac 0 (d0 * (2 / SQRT2))%float
  else Ok Deifac.

(** The nDij factors (lines 98-102); the state is the array and [index]. *)
Definition make_Dijfac (th : Thermodynamics) (Dijfac : list float)
    : result (list float) :=
  let k := nSpecies th - nHeavy th in
  '(Dijfac, _) ← for_range k (nSpecies th) (fun i st =>
    for_range i (nSpecies th) (fun j '(Dijfac, index) =>
      mwi ← speciesMw th i;
      mwj ← speciesMw th j;
      Dijfac ← array_set Dijfac index
        (3 / 16 * PrimFloat.sqrt (TWOPI * RU * (mwi + mwj) / (mwi * mwj)))%float;
      Ok (Dijfac, S index)) st) (Dijfac, 0%nat);
  Ok Dijfac.

(** [CollisionDBNew::CollisionDBNew] *)
Definition CollisionDBNew_new (root : XmlElement) (thermo : Thermodynamics)
    : result (CollisionDBNew G) :=
  let e := electrons thermo in
  let tabulate := getAttribute (attr_tabulate root) true in
  let table_min := getAttribute (attr_Tmin root) 300%float in
  let table_max := getAttribute (attr_Tmax root) 20000%float in
  let table_del := getAttribute (attr_dT root) 100%float in
  _ ← check_table tabulate table_min table_max table_del;
  pairs ← make_pairs root (species thermo);
  etafac ← make_etafac thermo (replicate (nHeavy thermo) indeterminate);
  Deifac ← make_Deifac thermo (replicate (nSpecies thermo * e) indeterminate);
  Dijfac ← make_Dijfac thermo
    (replicate (nHeavy thermo * (nHeavy thermo + 1) / 2) indeterminate);
  Ok (mkDB tabulate table_min table_max table_del pairs ∅ []
        (replicate (nHeavy thermo) indeterminate) etafac
        (replicate (nSpecies thermo * e) indeterminate) Deifac
        (replicate (nHeavy thermo * (nHeavy thermo + 1) / 2) indeterminate) Dijfac
        (replicate (nSpecies thermo) indeterminate)).

(** *** group *)

(** The temperature a group is updated at (lines 133 and 174):
    [type < II ? m_thermo.Te() : m_thermo.T()]. *)
Definition group_temperature (type : GroupType) (thermo : Thermodynamics) : float :=
  if (GroupType_value type <? GroupType_value II)%Z then Te thermo else T thermo.

(** Writing through a reference to the node at location [l]. *)
Definition update_node (l : nat) (g : G) (db : CollisionDBNew G) : CollisionDBNew G :=
  set_groups (m_groups db) (<[l := g]> (m_group_nodes db)) db.

(** [it + n] on an iterator at offset [pos] of [m_pairs]: no meaning beyond
    the end of the vector. *)
Definition iter_advance (pairs : list CollisionPairNew) (pos n : nat) : result nat :=
  if decide (pos + n <= length pairs) then Ok (pos + n) else Undefined.

(** The temporary list of the heavy diagonal components (lines 155-156):
    [for (int i = 0, index = k; i < ns-e; index += ns-e-i, i++)]; the state
    is [index] and [diag]. *)
Definition make_diag (pairs : list CollisionPairNew) (ns e k : nat)
    : result (list CollisionPairNew) :=
  '(_, diag) ← for_range 0 (ns - e) (fun i '(index, diag) =>
    p ← at_index pairs index;
    Ok (index + (ns - e - i), diag ++ [p])) (k, []);
  Ok diag.

(** The two lines written to [cout] before [exit(1)] (lines 161-164). *)
Definition bad_type_message (suffix name : string) : list string :=
  [ "Bad collision integral group type: '" +:+ suffix +:+
      "' in group name: '" +:+ name +:+ "'.";
    "Allowed group types are 'ee', 'ei', 'ii', and 'ij'." ].

(** The member range selected by the [switch] (lines 141-166). *)
Definition select_members (type : GroupType) (name : string)
    (thermo : Thermodynamics) (pairs : list CollisionPairNew)
    : result (list CollisionPairNew) :=
  let ns := nSpecies thermo in
  let e := electrons thermo in
  let k := e * ns in
  match type with
  | EE => end_ ← iter_advance pairs 0 e; Ok (take end_ pairs)
  | EI => end_ ← iter_advance pairs 0 k; Ok (take end_ pairs)
  | IJ => start ← iter_advance pairs 0 k; Ok (drop start pairs)
  | II => make_diag pairs ns e k
  | BAD_TYPE =>
      suffix ← substr name (size_t_sub (Z.of_nat (String.length name)) 2) npos;
      Exit 1 (bad_type_message suffix name)
  end.

(** [CollisionDBNew::group].  The result is the location of the node of
    [m_groups] the returned reference points to, and the new state of the
    database.
    Modelled from the spec: [CollisionGroup::update] returns the group it was
    called on (the group is re-evaluated and returned). *)
Definition group (name : string) (thermo : Thermodynamics) (db : CollisionDBNew G)
    : result (nat * CollisionDBNew G) :=
  type ← groupType name;
  _ ← c_assert (negb (GroupType_eqb type BAD_TYPE)) "type != BAD_TYPE";
  match m_groups db !! name with
  | Some l =>
      g ← at_index (m_group_nodes db) l;
      Ok (l, update_node l (update (group_temperature type thermo) thermo g) db)
  | None =>
      let l := length (m_group_nodes db) in
      let new_group :=
        CollisionGroup_new (m_tabulate db) (m_table_min db) (m_table_max db)
          (m_table_del db) in
      let db := set_groups (<[name := l]> (m_groups db))
                  (m_group_nodes db ++ [new_group]) db in
      members ← select_members type name thermo (m_pairs db);
      kind ← substr name 0 (size_t_sub (Z.of_nat (String.length name)) 2);
      Ok (l, update_node l
               (update (group_temperature type thermo) thermo
                  (manage members kind new_group)) db)
  end.

(** *** Derived quantities *)

(** Modelled from the spec: the accessor [Q22ii] is declared in
    CollisionDBNew.h, which is not part of the sources; it is the value array
    of [group("Q22ii")]. *)
Definition Q22ii (thermo : Thermodynamics) (db : CollisionDBNew G)
    : result (list float * CollisionDBNew G) :=
  '(l, db) ← group "Q22ii" thermo db;
  g ← at_index (m_group_nodes db) l;
  Ok (array g, db).

(** [CollisionDBNew::etai] *)
Definition etai (thermo : Thermodynamics) (db : CollisionDBNew G)
    : result (list float * CollisionDBNew G) :=
  '(q, db) ← Q22ii thermo db;
  v ← array_div (array_scale (PrimFloat.sqrt (T thermo)) (m_etafac db)) q;
  Ok (v, set_etai v db).

(** [CollisionDBNew::Dim] *)
Definition Dim (thermo : Thermodynamics) (db : CollisionDBNew G)
    : result (list float * CollisionDBNew G) :=
  let v := replicate (nSpecies thermo) 0%float in
  Ok (v, set_Dim v db).

(** *** Invariants of the database *)

(** The eta factors of the heavy species: heavy species [i] is the species
    of index [electrons + i]. *)
Definition etafac_spec (th : Thermodynamics) : list float :=
  (fun s => 5 / 16 * PrimFloat.sqrt (PI * RU * sp_molecularWeight s))%float
    <$> drop (electrons th) (species th).

(** Every name of the cache is a valid group name and points to a node. *)
Definition cache_ok (db : CollisionDBNew G) : Prop :=
  forall name l, m_groups db !! name = Some l ->
    l < length (m_group_nodes db) /\ exists t, valid_name name t.

Definition db_inv (root : XmlElement) (th : Thermodynamics)
    (db : CollisionDBNew G) : Prop :=
  Forall2 (is_pair root (species th)) (m_pairs db) (pair_indices (nSpecies th)) /\
  m_etafac db = etafac_spec th /\
  cache_ok db.

(** The members [group] gives to a new group of type [t], out of the pair
    list [pairs] of a mixture with e electrons and ns species: the first e
    pairs, the first e*ns pairs, the pairs from e*ns on, or the pairs (i,i)
    of the heavy species i = e, ..., ns-1 in this order. *)
Definition members_spec (root : XmlElement) (th : Thermodynamics) (t : GroupType)
    (pairs members : list CollisionPairNew) : Prop :=
  let ns := nSpecies th in
  let e := electrons th in
  match t with
  | EE => members = take e pairs
  | EI => members = take (e * ns) pairs
  | IJ => members = drop (e * ns) pairs
  | II => Forall2 (is_pair root (species th)) members
            ((fun i => (i, i)) <$> seq e (ns - e)) /\
          Forall (fun p => p ∈ pairs) members
  | BAD_TYPE => False
  end.

(** *** The tabulation configuration *)

(** The span of the temperature grid. *)
Definition table_span (table_min table_max table_del : float) : float :=
  ((table_max - table_min) / table_del)%float.

(** The span is a whole number within relative tolerance 1e-15: its distance
    to the whole number [z], relative to the span, is below 1e-15. *)
Definition near_whole (size : float) (z : Z) : bool :=
  (PrimFloat.abs (size - double_of_int z) / size <? 1.0e-15)%float.

(** Tmin, Tmax and dT are positive and Tmin is below Tmax. *)
Definition bounds_valid (table_min table_max table_del : float) : bool :=
  (0 <? table_min)%float && (0 <? table_max)%float && (0 <? table_del)%float
  && (table_min <? table_max)%float.

End CollisionDB.

(** ** The diffusion accessors and the whole interface *)

Definition set_nDei {G} (v : list float) (db : CollisionDBNew G) : CollisionDBNew G :=
  mkDB (m_tabulate db) (m_table_min db) (m_table_max db) (m_table_del db)
    (m_pairs db) (m_groups db) (m_group_nodes db) (m_etai db) (m_etafac db) v
    (m_Deifac db) (m_nDij db) (m_Dijfac db) (m_Dim db).

Definition set_nDij {G} (v : list float) (db : CollisionDBNew G) : CollisionDBNew G :=
  mkDB (m_tabulate db) (m_table_min db) (m_table_max db) (m_table_del db)
    (m_pairs db) (m_groups db) (m_group_nodes db) (m_etai db) (m_etafac db)
    (m_nDei db) (m_Deifac db) v (m_Dijfac db) (m_Dim db).

(** The index pairs of each group type, for ns species of which e electrons:
    the electron with itself, the electron with every species, the heavy
    species with themselves, the heavy species with each other. *)
Definition type_indices (t : GroupType) (ns e : nat) : list (nat * nat) :=
  match t with
  | EE => (fun i => (i, i)) <$> seq 0 e
  | EI => flat_map (pair_row ns) (seq 0 e)
  | II => (fun i => (i, i)) <$> seq e (ns - e)
  | IJ => flat_map (pair_row ns) (seq e (ns - e))
  | BAD_TYPE => []
  end.

(** The offset, in the block of the heavy pairs, of the pair of heavy
    species [i] with itself, for [nh] heavy species. *)
Definition diag_offset (nh i : nat) : nat := i * nh - i * (i - 1) / 2.

Section Diffusion.

Context {G : Type} `{!CollisionGroup G}.
Variables (PI RU TWOPI SQRT2 indeterminate : float) (NDEBUG : bool).

(** Modelled from the spec: the accessors [Q11ei] and [Q11ij] are declared in
    CollisionDBNew.h, which is not part of the sources; each is the value
    array of the group of its name ([array()] on an Eigen array is the array
    itself). *)
Definition Q11ei (thermo : Thermodynamics) (db : CollisionDBNew G)
    : result (list float * CollisionDBNew G) :=
  '(l, db) ← group NDEBUG "Q11ei" thermo db;
  g ← at_index (m_group_nodes db) l;
  Ok (array g, db).

Definition Q11ij (thermo : Thermodynamics) (db : CollisionDBNew G)
    : result (list float * CollisionDBNew G) :=
  '(l, db) ← group NDEBUG "Q11ij" thermo db;
  g ← at_index (m_group_nodes db) l;
  Ok (array g, db).

(** [CollisionDBNew::nDei] (lines 186-191) *)
Definition nDei (thermo : Thermodynamics) (db : CollisionDBNew G)
    : result (list float * CollisionDBNew G) :=
  if (0 <? length (m_nDei db))%nat then
    '(q, db) ← Q11ei thermo db;
    v ← array_div (array_scale (PrimFloat.sqrt (Te thermo)) (m_Deifac db)) q;
    Ok (v, set_nDei v db)
  else Ok (m_nDei db, db).

(** [CollisionDBNew::nDij] (lines 195-198) *)
Definition nDij (thermo : Thermodynamics) (db : CollisionDBNew G)
    : result (list float * CollisionDBNew G) :=
  '(q, db) ← Q11ij thermo db;
  v ← array_div (array_scale (PrimFloat.sqrt (T thermo)) (m_Dijfac db)) q;
  Ok (v, set_nDij v db).

(** The factor of line 93, from the molar mass of species 0, and the factor
    of lines 100-102, from the molar masses of a pair. *)
Definition Dei_value (mw0 : float) : float :=
  (3 / 16 * PrimFloat.sqrt (TWOPI * RU / mw0))%float.

Definition Dij_value (mwi mwj : float) : float :=
  (3 / 16 * PrimFloat.sqrt (TWOPI * RU * (mwi + mwj) / (mwi * mwj)))%float.

(** The nDei factors after construction: nothing without electrons; with
    them, one factor per species, the one of index 0 scaled by 2/SQRT2. *)
Definition Deifac_spec (th : Thermodynamics) : list float :=
  if hasElectrons th then
    match species th with
    | s0 :: _ =>
        <[0 := (Dei_value (sp_molecularWeight s0) * (2 / SQRT2))%float]>
          (replicate (nSpecies th) (Dei_value (sp_molecularWeight s0)))
    | [] => []
    end
  else [].

(** A nDij factor and the indices of the species it was computed from. *)
Definition Dij_at (th : Thermodynamics) (v : float) (ij : nat * nat) : Prop :=
  exists si sj,
    species th !! ij.1 = Some si /\ species th !! ij.2 = Some sj /\
    v = Dij_value (sp_molecularWeight si) (sp_molecularWeight sj).

(** A nDij factor and the pair it was computed from. *)
Definition Dij_of_pair (v : float) (p : CollisionPairNew) : Prop :=
  v = Dij_value (sp_molecularWeight (pair_sp1 p)) (sp_molecularWeight (pair_sp2 p)).

(** No two names of the cache share a node, and every node has a name. *)
Definition cache_inj (db : CollisionDBNew G) : Prop :=
  (forall n1 n2 l, m_groups db !! n1 = Some l -> m_groups db !! n2 = Some l -> n1 = n2) /\
  size (m_groups db) = length (m_group_nodes db).

(** What is fixed at construction. *)
Definition static_ok (root : XmlElement) (th : Thermodynamics)
    (db : CollisionDBNew G) : Prop :=
  m_tabulate db = getAttribute (attr_tabulate root) true /\
  m_table_min db = getAttribute (attr_Tmin root) 300%float /\
  m_table_max db = getAttribute (attr_Tmax root) 20000%float /\
  m_table_del db = getAttribute (attr_dT root) 100%float /\
  m_Deifac db = Deifac_spec th /\
  Forall2 Dij_of_pair (m_Dijfac db)
    (drop (electrons th * nSpecies th) (m_pairs db)) /\
  length (m_nDei db) = nSpecies th * electrons th.

Definition db_inv_all (root : XmlElement) (th : Thermodynamics)
    (db : CollisionDBNew G) : Prop :=
  db_inv PI RU root th db /\ static_ok root th db /\ cache_inj db.

(** The states of a database under its whole interface: construction, then
    calls of [group], [etai], [nDei], [nDij] and [Dim] that return. *)
Inductive reachable_all (root : XmlElement) (th0 : Thermodynamics)
    : CollisionDBNew G -> Prop :=
  | reach_all_new db :
      CollisionDBNew_new PI RU TWOPI SQRT2 indeterminate root th0 = Ok db ->
      reachable_all root th0 db
  | reach_all_group db name th l db' :
      reachable_all root th0 db ->
      same_mixture th0 th ->
      group NDEBUG name th db = Ok (l, db') ->
      reachable_all root th0 db'
  | reach_all_etai db th v db' :
      reachable_all root th0 db ->
      same_mixture th0 th ->
      etai NDEBUG th db = Ok (v, db') ->
      reachable_all root th0 db'
  | reach_all_nDei db th v db' :
      reachable_all root th0 db ->
      same_mixture th0 th ->
      nDei th db = Ok (v, db') ->
      reachable_all root th0 db'
  | reach_all_nDij db th v db' :
      reachable_all root th0 db ->
      same_mixture th0 th ->
      nDij th db = Ok (v, db') ->
      reachable_all root th0 db'
  | reach_all_Dim db th v db' :
      reachable_all root th0 db ->
      same_mixture th0 th ->
      Dim th db = Ok (v, db') ->
      reachable_all root th0 db'.

End Diffusion.

(** ** A concrete mixture and a concrete group implementation *)

Module Example.

(** A group that records what it is given; its pairs all evaluate to the
    temperature of the update (the collision integral Q(kind, T) = T). *)
Record RecGroup : Type := mkRec {
  rg_tabulate : bool;
  rg_min : float;
  rg_max : float;
  rg_del : float;
  rg_kind : string;
  rg_members : list CollisionPairNew;
  rg_values : list float
}.

#[global] Instance rec_group : CollisionGroup RecGroup := {
  CollisionGroup_new tab tmin tmax del := mkRec tab tmin tmax del EmptyString [] [];
  manage members kind g :=
    mkRec (rg_tabulate g) (rg_min g) (rg_max g) (rg_del g) kind members (rg_values g);
  update temp th g :=
    mkRec (rg_tabulate g) (rg_min g) (rg_max g) (rg_del g) (rg_kind g)
      (rg_members g) ((fun _ => temp) <$> rg_members g);
  array := rg_values
}.

Definition PI : float := 3.14159265358979323846%float.
Definition RU : float := 8.314472%float.
Definition TWOPI : float := (2 * PI)%float.
Definition SQRT2 : float := PrimFloat.sqrt 2.

(** One electron and two heavy species, heavy temperature 1000 K and
    electron temperature 2000 K. *)
Definition mixture : list Species :=
  [ mkSpecies "e-" 5.4857990946e-7; mkSpecies "N" 0.0140067; mkSpecies "N2" 0.0280134 ].

Definition thermo : Thermodynamics := mkThermo mixture true 1000 2000.

(** The same mixture at other temperatures. *)
Definition thermo_hot : Thermodynamics := mkThermo mixture true 5000 9000.

Definition root_default : XmlElement := mkXml None None None None.

Definition root_bad_grid : XmlElement :=
  mkXml (Some true) (Some 300%float) (Some 20050%float) (Some 100%float).

Definition root_untabulated : XmlElement :=
  mkXml (Some false) (Some (-1)%float) (Some 20000%float) (Some 100%float).

Definition new (root : XmlElement) (th : Thermodynamics) : result (CollisionDBNew RecGroup) :=
  CollisionDBNew_new PI RU TWOPI SQRT2 0 root th.

(** The database of the example mixture after construction. *)
Definition db0 : CollisionDBNew RecGroup :=
  match new root_default thermo with
  | Ok db => db
  | _ => mkDB true 0 0 0 [] ∅ [] [] [] [] [] [] [] []
  end.

End Example.

(** The two heavy species of the example without electrons. *)
Module ExampleHeavy.

Definition thermo : Thermodynamics :=
  mkThermo [ mkSpecies "N" 0.0140067; mkSpecies "N2" 0.0280134 ] false 1000 1000.

Definition db0 : CollisionDBNew Example.RecGroup :=
  match Example.new Example.root_default thermo with
  | Ok db => db
  | _ => mkDB true 0 0 0 [] ∅ [] [] [] [] [] [] [] []
  end.

End ExampleHeavy.

(** The database of the example mixture after a call of [group] on Q11ei. *)
Module ExampleCalls.

Definition db1 : CollisionDBNew Example.RecGroup :=
  match group false "Q11ei" Example.thermo Example.db0 with
  | Ok (_, db) => db
  | _ => Example.db0
  end.

End ExampleCalls.

(** ** Strings: indexing a name by its suffix *)

Lemma string_length_app (p s : string) :
  String.length (p +:+ s) = String.length p + String.length s.
Proof. induction p as [|c p IH]; simpl; [reflexivity | now rewrite IH]. Qed.

Lemma string_get_app_r (p s : string) (i : nat) :
  String.get (String.length p + i) (p +:+ s) = String.get i s.
Proof. induction p as [|c p IH]; simpl; [reflexivity | exact IH]. Qed.

Lemma string_at_app_r (p s : string) (i : nat) :
  i < String.length s ->
  string_at (p +:+ s) (Z.of_nat (String.length p + i)) = string_at s (Z.of_nat i).
Proof.
  intros Hi. unfold string_at.
  rewrite string_length_app.
  destruct (Z.ltb_spec (Z.of_nat (String.length p + i)) 0); [lia|].
  destruct (Z.ltb_spec (Z.of_nat i) 0); [lia|].
  destruct (Z.eqb_spec (Z.of_nat (String.length p + i))
              (Z.of_nat (String.length p + String.length s))); [lia|].
  destruct (Z.eqb_spec (Z.of_nat i) (Z.of_nat (String.length s))); [lia|].
  now rewrite !Nat2Z.id, string_get_app_r.
Qed.

Lemma string_split_last2 (name : string) :
  2 <= String.length name ->
  exists p a b, name = p +:+ String a (String b EmptyString).
Proof.
  induction name as [|c name IH]; simpl; [lia|].
  intros Hlen. destruct name as [|d name].
  - simpl in Hlen. lia.
  - destruct name as [|f name].
    + exists EmptyString, c, d. reflexivity.
    + destruct IH as (p & a & b & Hp); [simpl; lia|].
      exists (String c p), a, b. rewrite Hp. reflexivity.
Qed.

(** [groupType] on a name of at least two characters depends on the last two
    characters only, through the table [suffix_type]. *)
Lemma groupType_suffix (p : string) (a b : ascii) :
  groupType (p +:+ String a (String b EmptyString)) = Ok (suffix_type a b).
Proof.
  unfold groupType. rewrite string_length_app. simpl String.length.
  replace (Z.of_nat (String.length p + 2) - 2)%Z
    with (Z.of_nat (String.length p + 0)) by lia.
  replace (Z.of_nat (String.length p + 2) - 1)%Z
    with (Z.of_nat (String.length p + 1)) by lia.
  rewrite !string_at_app_r by (simpl; lia).
  unfold string_at; simpl. unfold suffix_type.
  destruct (Ascii.eqb a "e"%char); simpl.
  - destruct (Ascii.eqb b "e"%char); [reflexivity|].
    destruct (Ascii.eqb b "i"%char); reflexivity.
  - destruct (Ascii.eqb a "i"%char); [|reflexivity]. simpl.
    destruct (Ascii.eqb b "i"%char); [reflexivity|].
    destruct (Ascii.eqb b "j"%char); reflexivity.
Qed.

(** On a name shorter than two characters the first read, [name[len-2]], is
    out of range. *)
Lemma groupType_short (name : string) :
  String.length name < 2 -> groupType name = Undefined.
Proof.
  intros Hlen. unfold groupType, string_at.
  destruct (Z.ltb_spec (Z.of_nat (String.length name) - 2) 0); [reflexivity | lia].
Qed.

Lemma valid_name_length (name : string) (t : GroupType) :
  valid_name name t -> 2 <= String.length name.
Proof.
  intros [Hg _]. destruct (le_lt_dec 2 (String.length name)) as [|Hlt]; [assumption|].
  rewrite (groupType_short _ Hlt) in Hg. discriminate.
Qed.

(** ** Loops *)

Lemma rbind_Ok {A B} (a : A) (f : A -> result B) : (Ok a ≫= f) = f a.
Proof. reflexivity. Qed.

Lemma for_loop_inv {St : Type} (P : nat -> St -> Prop) (n i : nat)
    (body : nat -> St -> result St) (s : St) :
  P i s ->
  (forall j s, i <= j < i + n -> P j s -> exists s', body j s = Ok s' /\ P (S j) s') ->
  exists s', for_loop n i body s = Ok s' /\ P (i + n) s'.
Proof.
  revert i s. induction n as [|n IH]; intros i s Hs Hbody.
  - exists s. rewrite Nat.add_0_r. split; [reflexivity | assumption].
  - destruct (Hbody i s) as (s1 & Hb & Hs1); [lia | assumption |].
    destruct (IH (S i) s1) as (s2 & Hl & Hs2); [assumption | |].
    + intros j s' Hj. apply Hbody. lia.
    + exists s2. simpl. rewrite Hb, rbind_Ok. split; [assumption|].
      replace (i + S n) with (S i + n) by lia. assumption.
Qed.

Lemma for_range_inv {St : Type} (P : nat -> St -> Prop) (lo hi : nat)
    (body : nat -> St -> result St) (s : St) :
  lo <= hi ->
  P lo s ->
  (forall j s, lo <= j < hi -> P j s -> exists s', body j s = Ok s' /\ P (S j) s') ->
  exists s', for_range lo hi body s = Ok s' /\ P hi s'.
Proof.
  intros Hle Hs Hbody. unfold for_range.
  destruct (for_loop_inv P (hi - lo) lo body s) as (s' & Hl & Hs'); [assumption | |].
  - intros j s0 Hj. apply Hbody. lia.
  - exists s'. split; [assumption|]. replace hi with (lo + (hi - lo)) at 1 by lia.
    assumption.
Qed.

Lemma at_index_Some {A} (l : list A) (i : nat) (a : A) :
  l !! i = Some a -> at_index l i = Ok a.
Proof. unfold at_index. now intros ->. Qed.

(** ** The species-pair list *)

Lemma pair_row_length (n i : nat) : length (pair_row n i) = n - i.
Proof. unfold pair_row. now rewrite length_fmap, length_seq. Qed.

Lemma pair_indices_S_rows (n m : nat) :
  flat_map (pair_row n) (seq 0 (S m)) =
  flat_map (pair_row n) (seq 0 m) ++ pair_row n m.
Proof. rewrite seq_S, flat_map_app. simpl. now rewrite app_nil_r. Qed.

Lemma pair_row_S (i m : nat) :
  pair i <$> seq i (S m) = (pair i <$> seq i m) ++ [(i, i + m)].
Proof. now rewrite seq_S, fmap_app. Qed.

Lemma make_pairs_spec (root : XmlElement) (sp : list Species) :
  exists pairs,
    make_pairs root sp = Ok pairs /\
    Forall2 (is_pair root sp) pairs (pair_indices (length sp)).
Proof.
  unfold make_pairs, pair_indices. set (n := length sp).
  apply (for_range_inv
    (fun i pairs => Forall2 (is_pair root sp) pairs (flat_map (pair_row n) (seq 0 i)))).
  - lia.
  - constructor.
  - intros i pairs Hi Hinv.
    destruct (for_range_inv
      (fun j pairs' => Forall2 (is_pair root sp) pairs'
         (flat_map (pair_row n) (seq 0 i) ++ (pair i <$> seq i (j - i))))
      i n (fun j pairs0 =>
             si ← at_index sp i; sj ← at_index sp j;
             Ok (pairs0 ++ [mkPair si sj root])) pairs) as (pairs' & Hl & Hp).
    + lia.
    + rewrite Nat.sub_diag. simpl. now rewrite app_nil_r.
    + intros j pairs0 Hj Hinv0.
      destruct (lookup_lt_is_Some_2 sp i) as [si Hsi]; [fold n; lia|].
      destruct (lookup_lt_is_Some_2 sp j) as [sj Hsj]; [fold n; lia|].
      exists (pairs0 ++ [mkPair si sj root]). split.
      * now rewrite (at_index_Some _ _ _ Hsi), rbind_Ok,
          (at_index_Some _ _ _ Hsj), rbind_Ok.
      * replace (S j - i) with (S (j - i)) by lia.
        rewrite pair_row_S, app_assoc. apply Forall2_app; [assumption|].
        constructor; [|constructor].
        replace (i + (j - i)) with j by lia. now repeat split.
    + exists pairs'. split; [exact Hl|].
      rewrite pair_indices_S_rows. exact Hp.
Qed.

Lemma tri_S (m : nat) : S m * (S m + 1) / 2 = m * (m + 1) / 2 + S m.
Proof.
  replace (S m * (S m + 1)) with (m * (m + 1) + S m * 2) by lia.
  now rewrite Nat.div_add.
Qed.

Lemma rows_length (n m : nat) :
  m <= n ->
  length (flat_map (pair_row n) (seq 0 m)) + (n - m) * (n - m + 1) / 2
  = n * (n + 1) / 2.
Proof.
  induction m as [|m IH]; intros Hm.
  - simpl. now rewrite Nat.sub_0_r.
  - rewrite pair_indices_S_rows, length_app, pair_row_length.
    rewrite <- IH by lia.
    replace (n - m) with (S (n - S m)) by lia. rewrite tri_S. lia.
Qed.

Lemma pair_indices_length (n : nat) : length (pair_indices n) = n * (n + 1) / 2.
Proof.
  unfold pair_indices. pose proof (rows_length n n (le_n n)) as H.
  rewrite Nat.sub_diag in H. change (0 * (0 + 1) / 2) with 0 in H. lia.
Qed.

Lemma elem_of_pair_indices (n i j : nat) :
  (i, j) ∈ pair_indices n <-> i <= j < n.
Proof.
  unfold pair_indices, pair_row. rewrite list_elem_of_In, in_flat_map. split.
  - intros (x & Hx & Hin). apply in_seq in Hx.
    apply list_elem_of_In, list_elem_of_fmap in Hin as (y & Heq & Hy).
    inversion Heq; subst. apply list_elem_of_In, in_seq in Hy. lia.
  - intros Hij. exists i. split; [apply in_seq; lia|].
    apply list_elem_of_In, list_elem_of_fmap. exists j. split; [reflexivity|].
    apply list_elem_of_In, in_seq. lia.
Qed.

Lemma pair_row_sorted (i m : nat) : StronglySorted lex_lt (pair i <$> seq i m).
Proof.
  induction m as [|m IH]; [constructor|].
  rewrite pair_row_S. apply StronglySorted_app_2; [|assumption|repeat constructor].
  intros x y Hx Hy. apply list_elem_of_fmap in Hx as (j & -> & Hj).
  apply list_elem_of_In, in_seq in Hj.
  apply list_elem_of_singleton in Hy as ->. right. simpl. lia.
Qed.

Lemma rows_sorted (n m : nat) :
  StronglySorted lex_lt (flat_map (pair_row n) (seq 0 m)).
Proof.
  induction m as [|m IH]; [constructor|].
  rewrite pair_indices_S_rows.
  apply StronglySorted_app_2; [|assumption|apply pair_row_sorted].
  intros x y Hx Hy.
  apply list_elem_of_In, in_flat_map in Hx as (i & Hi & Hx).
  apply in_seq in Hi.
  apply list_elem_of_In, list_elem_of_fmap in Hx as (j & -> & _).
  apply list_elem_of_fmap in Hy as (j' & -> & _). left. simpl. lia.
Qed.

Lemma pair_indices_sorted (n : nat) : StronglySorted lex_lt (pair_indices n).
Proof. apply rows_sorted. Qed.

(** The position of the pair [(i, i + c)] in the enumeration: after the
    rows of the indices below [i], at offset [c] of the row of [i]. *)
Lemma pair_indices_lookup (n i c : nat) :
  i + c < n ->
  pair_indices n !! (length (flat_map (pair_row n) (seq 0 i)) + c) = Some (i, i + c).
Proof.
  intros Hic. unfold pair_indices.
  assert (seq 0 n = seq 0 i ++ i :: seq (S i) (n - S i)) as ->.
  { replace n with (i + S (n - S i)) at 1 by lia. now rewrite seq_app. }
  rewrite flat_map_app. simpl flat_map.
  rewrite lookup_app_r by lia.
  replace (length (flat_map (pair_row n) (seq 0 i)) + c
           - length (flat_map (pair_row n) (seq 0 i))) with c by lia.
  rewrite lookup_app_l by (rewrite pair_row_length; lia).
  unfold pair_row. rewrite list_lookup_fmap, lookup_seq_lt by lia. reflexivity.
Qed.

(** ** The constructor *)

Section Constructor.

Context {G : Type}.
Variables (PI RU TWOPI SQRT2 indeterminate : float).

Lemma thermo_ok_k (th : Thermodynamics) :
  thermo_ok th -> nSpecies th - nHeavy th = electrons th.
Proof. unfold thermo_ok, nHeavy. lia. Qed.

Lemma speciesMw_Some (th : Thermodynamics) (i : nat) (s : Species) :
  species th !! i = Some s -> speciesMw th i = Ok (sp_molecularWeight s).
Proof. intros H. unfold speciesMw. now rewrite (at_index_Some _ _ _ H). Qed.

Lemma array_set_lt (a : list float) (i : nat) (v : float) :
  i < length a -> array_set a i v = Ok (<[i := v]> a).
Proof. intros H. unfold array_set. now rewrite decide_True. Qed.

Lemma make_etafac_spec (th : Thermodynamics) :
  thermo_ok th ->
  make_etafac PI RU th (replicate (nHeavy th) indeterminate)
  = Ok (etafac_spec PI RU th).
Proof.
  intros Hok. unfold make_etafac, etafac_spec.
  rewrite (thermo_ok_k th Hok).
  set (k := electrons th). set (sp := species th).
  set (f := fun s => (5 / 16 * PrimFloat.sqrt (PI * RU * sp_molecularWeight s))%float).
  assert (Hlen : length sp = nSpecies th) by reflexivity.
  assert (HnH : nHeavy th = nSpecies th - k) by reflexivity.
  assert (Hk : k <= nSpecies th) by exact Hok.
  destruct (for_range_inv
    (fun i a => a = (f <$> take (i - k) (drop k sp))
                    ++ replicate (nHeavy th - (i - k)) indeterminate)
    k (nSpecies th)
    (fun i etafac => mw ← speciesMw th i;
       array_set etafac (i - k)
         (5 / 16 * PrimFloat.sqrt (PI * RU * mw))%float)
    (replicate (nHeavy th) indeterminate)) as (a & Hl & Ha).
  - exact Hk.
  - rewrite Nat.sub_diag. simpl. now rewrite Nat.sub_0_r.
  - intros i a Hi ->.
    destruct (lookup_lt_is_Some_2 sp i) as [s Hs]; [lia|].
    rewrite (speciesMw_Some th i s Hs), rbind_Ok.
    assert (Hd : drop k sp !! (i - k) = Some s).
    { rewrite lookup_drop. now replace (k + (i - k)) with i by lia. }
    assert (Hlt : length (f <$> take (i - k) (drop k sp)) = i - k).
    { rewrite length_fmap, length_take, length_drop. lia. }
    eexists. split.
    + apply array_set_lt. rewrite length_app, Hlt, length_replicate. lia.
    + rewrite insert_app_r_alt by lia. rewrite Hlt, Nat.sub_diag.
      replace (nHeavy th - (i - k)) with (S (nHeavy th - (S i - k))) by lia.
      simpl. replace (S i - k) with (S (i - k)) by lia.
      rewrite (take_S_r _ _ _ Hd), fmap_app. simpl.
      now rewrite <- app_assoc.
  - rewrite Hl. f_equal. rewrite Ha.
    replace (nHeavy th - (nSpecies th - k)) with 0 by lia.
    simpl. rewrite app_nil_r. f_equal.
    apply take_ge. rewrite length_drop. lia.
Qed.

Lemma make_Deifac_ok (th : Thermodynamics) (a : list float) :
  thermo_ok th ->
  length a = nSpecies th * electrons th ->
  exists a', make_Deifac RU TWOPI SQRT2 th a = Ok a'.
Proof.
  intros Hok Hlen. unfold make_Deifac. rewrite (thermo_ok_k th Hok).
  destruct (Nat.ltb_spec 0 (electrons th)) as [He|He]; [|eauto].
  assert (He1 : electrons th = 1) by (unfold electrons in *; destruct (hasElectrons th); lia).
  assert (Hns : 0 < nSpecies th) by (unfold thermo_ok in Hok; lia).
  destruct (lookup_lt_is_Some_2 (species th) 0) as [s Hs]; [exact Hns|].
  destruct (for_range_inv (fun (_ : nat) (a' : list float) => length a' = nSpecies th)
    0 (nSpecies th)
    (fun i Deifac => mw0 ← speciesMw th 0;
       array_set Deifac i (3 / 16 * PrimFloat.sqrt (TWOPI * RU / mw0))%float)
    a) as (a1 & Hl & Ha1).
  - lia.
  - lia.
  - intros i a' Hi Ha'. rewrite (speciesMw_Some th 0 s Hs), rbind_Ok.
    eexists. split; [apply array_set_lt; lia|]. now rewrite length_insert.
  - rewrite Hl, rbind_Ok.
    destruct (lookup_lt_is_Some_2 a1 0) as [d0 Hd0]; [lia|].
    rewrite (at_index_Some _ _ _ Hd0), rbind_Ok.
    eexists. apply array_set_lt. lia.
Qed.

Lemma make_Dijfac_ok (th : Thermodynamics) (a : list float) :
  thermo_ok th ->
  length a = nHeavy th * (nHeavy th + 1) / 2 ->
  exists a', make_Dijfac RU TWOPI th a = Ok a'.
Proof.
  intros Hok Hlen. unfold make_Dijfac. rewrite (thermo_ok_k th Hok).
  set (ns := nSpecies th). set (k := electrons th).
  set (N := nHeavy th * (nHeavy th + 1) / 2) in *.
  assert (Hk : k <= ns) by exact Hok.
  assert (HnH : nHeavy th = ns - k) by reflexivity.
  set (inner := fun (i j : nat) (st : list float * nat) =>
    let '(Dijfac, index) := st in
    mwi ← speciesMw th i; mwj ← speciesMw th j;
    Dijfac ← array_set Dijfac index
      (3 / 16 * PrimFloat.sqrt (TWOPI * RU * (mwi + mwj) / (mwi * mwj)))%float;
    Ok (Dijfac, S index)).
  destruct (for_range_inv
    (fun i (st : list float * nat) =>
       length st.1 = N /\ st.2 + (ns - i) * (ns - i + 1) / 2 = N)
    k ns (fun i st => for_range i ns (inner i) st) (a, 0)) as ([a' idx] & Hl & _).
  - exact Hk.
  - cbn [fst snd]. split; [exact Hlen|]. unfold N. now rewrite HnH.
  - intros i [a0 idx0] Hi [Hlen0 Hidx0]. cbn [fst snd] in Hlen0, Hidx0.
    destruct (for_range_inv
      (fun j (st : list float * nat) =>
         length st.1 = N /\
         st.2 + (ns - j) + (ns - S i) * (ns - S i + 1) / 2 = N)
      i ns (inner i) (a0, idx0)) as (st & Hst & Hlen' & Hidx').
    + lia.
    + cbn [fst snd]. split; [exact Hlen0|]. rewrite <- Hidx0.
      replace (ns - i) with (S (ns - S i)) at 2 3 by lia. rewrite tri_S. lia.
    + intros j [a1 idx1] Hj [Hlen1 Hidx1]. cbn [fst snd] in Hlen1, Hidx1.
      unfold inner.
      destruct (lookup_lt_is_Some_2 (species th) i) as [si Hsi]; [change (i < ns); lia|].
      destruct (lookup_lt_is_Some_2 (species th) j) as [sj Hsj]; [change (j < ns); lia|].
      rewrite (speciesMw_Some th i si Hsi), rbind_Ok.
      rewrite (speciesMw_Some th j sj Hsj), rbind_Ok.
      rewrite array_set_lt by lia. rewrite rbind_Ok.
      eexists. split; [reflexivity|]. cbn [fst snd]. rewrite length_insert. lia.
    + exists st. split; [exact Hst|]. split; [exact Hlen'|].
      rewrite Nat.sub_diag, Nat.add_0_r in Hidx'. exact Hidx'.
  - exists a'.
    change ((for_range k ns (fun i st => for_range i ns (inner i) st) (a, 0)
             ≫= fun '(Dijfac, _) => Ok Dijfac) = Ok a').
    rewrite Hl. reflexivity.
Qed.

(** Construction, once the table data passed its checks. *)
Lemma new_checked (root : XmlElement) (th : Thermodynamics) :
  thermo_ok th ->
  check_table (getAttribute (attr_tabulate root) true)
    (getAttribute (attr_Tmin root) 300%float)
    (getAttribute (attr_Tmax root) 20000%float)
    (getAttribute (attr_dT root) 100%float) = Ok tt ->
  exists db : CollisionDBNew G,
    CollisionDBNew_new PI RU TWOPI SQRT2 indeterminate root th = Ok db /\
    m_tabulate db = getAttribute (attr_tabulate root) true /\
    m_groups db = ∅ /\ m_group_nodes db = [] /\
    m_etafac db = etafac_spec PI RU th /\
    make_pairs root (species th) = Ok (m_pairs db).
Proof.
  intros Hok Hcheck. unfold CollisionDBNew_new. rewrite Hcheck, rbind_Ok.
  destruct (make_pairs_spec root (species th)) as (pairs & Hp & _).
  rewrite Hp, rbind_Ok, (make_etafac_spec th Hok), rbind_Ok.
  destruct (make_Deifac_ok th (replicate (nSpecies th * electrons th) indeterminate) Hok)
    as (Dei & ->); [now rewrite length_replicate|].
  rewrite rbind_Ok.
  destruct (make_Dijfac_ok th
    (replicate (nHeavy th * (nHeavy th + 1) / 2) indeterminate) Hok)
    as (Dij & ->); [now rewrite length_replicate|].
  rewrite rbind_Ok. eexists. split; [reflexivity|]. simpl. repeat split.
Qed.

(** Construction stops where the checks of the table data stop. *)
Lemma new_check_stops (root : XmlElement) (th : Thermodynamics) :
  check_table (getAttribute (attr_tabulate root) true)
    (getAttribute (attr_Tmin root) 300%float)
    (getAttribute (attr_Tmax root) 20000%float)
    (getAttribute (attr_dT root) 100%float) <> Ok tt ->
  CollisionDBNew_new (G:=G) PI RU TWOPI SQRT2 indeterminate root th
  = rbind (check_table (getAttribute (attr_tabulate root) true)
      (getAttribute (attr_Tmin root) 300%float)
      (getAttribute (attr_Tmax root) 20000%float)
      (getAttribute (attr_dT root) 100%float)) (fun _ => Undefined).
Proof.
  intros Hne. unfold CollisionDBNew_new.
  destruct (check_table _ _ _ _) as [[]| | | | |]; try reflexivity. now destruct Hne.
Qed.

End Constructor.

(** ** Names: kind and suffix *)

Lemma substring_prefix (p s : string) :
  String.substring 0 (String.length p) (p +:+ s) = p.
Proof.
  induction p as [|c p IH]; simpl.
  - destruct s; reflexivity.
  - now rewrite IH.
Qed.

Lemma substring_all (s : string) : String.substring 0 (String.length s) s = s.
Proof. induction s as [|c s IH]; simpl; [reflexivity | now rewrite IH]. Qed.

Lemma substring_suffix (p s : string) :
  String.substring (String.length p) (String.length s) (p +:+ s) = s.
Proof. induction p as [|c p IH]; simpl; [apply substring_all | exact IH]. Qed.

(** The kind of a name: what precedes its two-character suffix. *)
Lemma substr_kind (p : string) (a b : ascii) :
  let name := p +:+ String a (String b EmptyString) in
  substr name 0 (size_t_sub (Z.of_nat (String.length name)) 2) = Ok p.
Proof.
  intros name. unfold substr, size_t_sub. subst name.
  rewrite string_length_app. simpl String.length.
  destruct (Z.ltb_spec (Z.of_nat (String.length p + 2)) 0); [lia|].
  destruct (Z.ltb_spec (Z.of_nat (String.length p + 2)) 2); [lia|].
  rewrite Z.min_l by lia.
  replace (Z.to_nat (Z.of_nat (String.length p + 2) - 2)) with (String.length p) by lia.
  simpl Z.to_nat. now rewrite substring_prefix.
Qed.

Lemma substr_suffix (p : string) (a b : ascii) :
  let name := p +:+ String a (String b EmptyString) in
  substr name (size_t_sub (Z.of_nat (String.length name)) 2) npos
  = Ok (String a (String b EmptyString)).
Proof.
  intros name. unfold substr, size_t_sub, npos, size_t_mod. subst name.
  rewrite string_length_app. simpl String.length.
  destruct (Z.ltb_spec (Z.of_nat (String.length p + 2)) 2); [lia|].
  destruct (Z.ltb_spec (Z.of_nat (String.length p + 2))
              (Z.of_nat (String.length p + 2) - 2)); [lia|].
  rewrite Z.min_r by lia.
  replace (Z.to_nat (Z.of_nat (String.length p + 2) - 2)) with (String.length p) by lia.
  replace (Z.to_nat (Z.of_nat (String.length p + 2)
                     - (Z.of_nat (String.length p + 2) - 2)))
    with (String.length (String a (String b EmptyString))) by (simpl; lia).
  now rewrite substring_suffix.
Qed.

Lemma valid_name_split (name : string) (t : GroupType) :
  valid_name name t ->
  exists p a b, name = p +:+ String a (String b EmptyString) /\ suffix_type a b = t.
Proof.
  intros Hv. destruct (string_split_last2 name (valid_name_length _ _ Hv))
    as (p & a & b & ->).
  destruct Hv as [Hg _]. rewrite groupType_suffix in Hg. inversion Hg.
  now exists p, a, b.
Qed.

(** ** group *)

Section Group.

Context {G : Type} `{!CollisionGroup G}.
Variables (PI RU : float) (NDEBUG : bool).

Lemma tri_ge (n : nat) : n <= n * (n + 1) / 2.
Proof.
  induction n as [|n IH]; [apply Nat.le_0_l|]. rewrite tri_S. lia.
Qed.

Lemma pairs_length (root : XmlElement) (sp : list Species)
    (pairs : list CollisionPairNew) :
  Forall2 (is_pair root sp) pairs (pair_indices (length sp)) ->
  length pairs = length sp * (length sp + 1) / 2.
Proof. intros H. now rewrite (Forall2_length _ _ _ H), pair_indices_length. Qed.

Lemma iter_advance_le (pairs : list CollisionPairNew) (n : nat) :
  n <= length pairs -> iter_advance pairs 0 n = Ok n.
Proof. intros H. unfold iter_advance. now rewrite decide_True. Qed.

(** The first index of the heavy block. *)
Lemma heavy_block_start (th : Thermodynamics) :
  electrons th * nSpecies th
  = length (flat_map (pair_row (nSpecies th)) (seq 0 (electrons th))).
Proof.
  unfold electrons. destruct (hasElectrons th); simpl; [|reflexivity].
  rewrite app_nil_r, pair_row_length. lia.
Qed.

Lemma make_diag_spec (root : XmlElement) (th : Thermodynamics)
    (pairs : list CollisionPairNew) :
  thermo_ok th ->
  Forall2 (is_pair root (species th)) pairs (pair_indices (nSpecies th)) ->
  exists diag,
    make_diag pairs (nSpecies th) (electrons th) (electrons th * nSpecies th) = Ok diag /\
    Forall2 (is_pair root (species th)) diag
      ((fun i => (i, i)) <$> seq (electrons th) (nSpecies th - electrons th)) /\
    Forall (fun p => p ∈ pairs) diag.
Proof.
  intros Hok Hpairs. unfold make_diag.
  set (ns := nSpecies th) in *. set (e := electrons th) in *.
  assert (He : e <= ns) by exact Hok.
  set (body := fun (i : nat) (st : nat * list CollisionPairNew) =>
    let '(index, diag) := st in
    p ← at_index pairs index; Ok (index + (ns - e - i), diag ++ [p])).
  destruct (for_range_inv
    (fun i (st : nat * list CollisionPairNew) =>
       st.1 = length (flat_map (pair_row ns) (seq 0 (e + i))) /\
       Forall2 (is_pair root (species th)) st.2 ((fun i => (i, i)) <$> seq e i) /\
       Forall (fun p => p ∈ pairs) st.2)
    0 (ns - e) body (e * ns, [])) as ([idx diag] & Hl & _ & Hd & Hin).
  - lia.
  - cbn [fst snd]. rewrite Nat.add_0_r. split; [apply heavy_block_start|].
    split; constructor.
  - intros i [idx diag] Hi (Hidx & Hd & Hin). cbn [fst snd] in Hidx, Hd, Hin.
    unfold body.
    pose proof (pair_indices_lookup ns (e + i) 0 ltac:(lia)) as Hlk.
    rewrite !Nat.add_0_r in Hlk. rewrite <- Hidx in Hlk.
    destruct (Forall2_lookup_r _ _ _ _ _ Hpairs Hlk) as (p & Hp & Hisp).
    rewrite (at_index_Some _ _ _ Hp), rbind_Ok.
    eexists. split; [reflexivity|]. cbn [fst snd]. repeat split.
    + replace (e + S i) with (S (e + i)) by lia.
      rewrite pair_indices_S_rows, length_app, pair_row_length, Hidx. lia.
    + rewrite seq_S, fmap_app. apply Forall2_app; [assumption|].
      constructor; [assumption | constructor].
    + apply Forall_app. split; [assumption|]. constructor; [|constructor].
      apply list_elem_of_lookup. eauto.
  - exists diag. split; [|split; assumption].
    change ((for_range 0 (ns - e) body (e * ns, []) ≫= fun '(_, diag) => Ok diag)
            = Ok diag).
    now rewrite Hl.
Qed.

(** The range selected for a valid type. *)
Lemma select_members_spec (root : XmlElement) (th : Thermodynamics)
    (t : GroupType) (name : string) (pairs : list CollisionPairNew) :
  thermo_ok th ->
  Forall2 (is_pair root (species th)) pairs (pair_indices (nSpecies th)) ->
  t <> BAD_TYPE ->
  exists members,
    select_members t name th pairs = Ok members /\
    members_spec root th t pairs members.
Proof.
  intros Hok Hpairs Ht.
  pose proof (pairs_length _ _ _ Hpairs) as Hlen. fold (nSpecies th) in Hlen.
  pose proof (tri_ge (nSpecies th)) as Htri.
  assert (He : electrons th <= nSpecies th) by exact Hok.
  assert (Hk : electrons th * nSpecies th <= length pairs).
  { unfold electrons in *. destruct (hasElectrons th); lia. }
  destruct t; simpl; try congruence.
  - rewrite iter_advance_le by lia. eexists; split; reflexivity.
  - rewrite iter_advance_le by lia. eexists; split; reflexivity.
  - apply (make_diag_spec root th pairs Hok Hpairs).
  - rewrite iter_advance_le by lia. eexists; split; reflexivity.
Qed.

Lemma c_assert_valid (t : GroupType) :
  t <> BAD_TYPE ->
  c_assert NDEBUG (negb (GroupType_eqb t BAD_TYPE)) "type != BAD_TYPE" = Ok tt.
Proof. intros Ht. unfold c_assert. destruct NDEBUG, t; try reflexivity. congruence. Qed.

(** A call on a name that is in the cache. *)
Lemma group_hit (th : Thermodynamics) (db : CollisionDBNew G)
    (name : string) (t : GroupType) (l : nat) :
  cache_ok db ->
  valid_name name t ->
  m_groups db !! name = Some l ->
  exists g,
    m_group_nodes db !! l = Some g /\
    group NDEBUG name th db
    = Ok (l, update_node l (update (group_temperature t th) th g) db).
Proof.
  intros Hc [Hg Ht] Hl. destruct (Hc name l Hl) as [Hlt _].
  destruct (lookup_lt_is_Some_2 _ _ Hlt) as [g Hgl].
  exists g. split; [assumption|]. unfold group.
  rewrite Hg, rbind_Ok, (c_assert_valid t Ht), rbind_Ok, Hl.
  now rewrite (at_index_Some _ _ _ Hgl).
Qed.

(** A call on a valid name that is not in the cache. *)
Lemma group_miss (root : XmlElement) (th : Thermodynamics) (db : CollisionDBNew G)
    (p : string) (a b : ascii) :
  let name := p +:+ String a (String b EmptyString) in
  let t := suffix_type a b in
  thermo_ok th ->
  Forall2 (is_pair root (species th)) (m_pairs db) (pair_indices (nSpecies th)) ->
  t <> BAD_TYPE ->
  m_groups db !! name = None ->
  exists members,
    members_spec root th t (m_pairs db) members /\
    group NDEBUG name th db
    = Ok (length (m_group_nodes db),
          set_groups (<[name := length (m_group_nodes db)]> (m_groups db))
            (m_group_nodes db ++
               [update (group_temperature t th) th
                  (manage members p
                     (CollisionGroup_new (m_tabulate db) (m_table_min db)
                        (m_table_max db) (m_table_del db)))]) db).
Proof.
  intros name t Hok Hpairs Ht Hnone.
  destruct (select_members_spec root th t name (m_pairs db) Hok Hpairs Ht)
    as (members & Hsel & Hspec).
  exists members. split; [assumption|]. subst name. unfold group.
  rewrite groupType_suffix, rbind_Ok.
  fold t. rewrite (c_assert_valid t Ht), rbind_Ok, Hnone.
  cbn [m_pairs set_groups]. rewrite Hsel, rbind_Ok.
  rewrite substr_kind, rbind_Ok.
  unfold update_node, set_groups. cbn [m_groups m_group_nodes m_tabulate
    m_table_min m_table_max m_table_del m_pairs m_etai m_etafac m_nDei m_Deifac
    m_nDij m_Dijfac m_Dim].
  rewrite insert_app_r_alt by lia. rewrite Nat.sub_diag. reflexivity.
Qed.

End Group.

(** ** Reachable states *)

Lemma rbind_Ok_inv {A B} (r : result A) (f : A -> result B) (b : B) :
  (r ≫= f) = Ok b -> exists a, r = Ok a /\ f a = Ok b.
Proof. destruct r; try discriminate. intros H. eauto. Qed.

Section Reachable.

Context {G : Type} `{!CollisionGroup G}.
Variables (PI RU TWOPI SQRT2 indeterminate : float) (NDEBUG : bool).

Lemma new_Ok_inv (root : XmlElement) (th : Thermodynamics) (db : CollisionDBNew G) :
  CollisionDBNew_new PI RU TWOPI SQRT2 indeterminate root th = Ok db ->
  check_table (getAttribute (attr_tabulate root) true)
    (getAttribute (attr_Tmin root) 300%float)
    (getAttribute (attr_Tmax root) 20000%float)
    (getAttribute (attr_dT root) 100%float) = Ok tt /\
  make_pairs root (species th) = Ok (m_pairs db) /\
  make_etafac PI RU th (replicate (nHeavy th) indeterminate) = Ok (m_etafac db) /\
  m_groups db = ∅ /\ m_group_nodes db = [].
Proof.
  unfold CollisionDBNew_new. intros H.
  apply rbind_Ok_inv in H as ([] & Hc & H).
  apply rbind_Ok_inv in H as (pairs & Hp & H).
  apply rbind_Ok_inv in H as (etafac & He & H).
  apply rbind_Ok_inv in H as (Dei & _ & H).
  apply rbind_Ok_inv in H as (Dij & _ & H).
  inversion H; subst; clear H. simpl. repeat split; assumption.
Qed.

(** What a returning call of [group] did. *)
Lemma group_Ok_inv (th : Thermodynamics) (db db' : CollisionDBNew G)
    (name : string) (l : nat) :
  cache_ok db ->
  group NDEBUG name th db = Ok (l, db') ->
  exists t g,
    valid_name name t /\
    ((m_groups db !! name = Some l /\ db' = update_node l g db) \/
     (m_groups db !! name = None /\ l = length (m_group_nodes db) /\
      db' = set_groups (<[name := l]> (m_groups db)) (m_group_nodes db ++ [g]) db)).
Proof.
  intros Hc H. unfold group in H.
  apply rbind_Ok_inv in H as (t & Ht & H).
  apply rbind_Ok_inv in H as ([] & Ha & H).
  destruct (m_groups db !! name) as [l0|] eqn:Hl.
  - destruct (Hc name l0 Hl) as [_ (t' & Ht' & Hne)].
    rewrite Ht in Ht'. inversion Ht'; subst t'.
    apply rbind_Ok_inv in H as (g & Hg & H). inversion H; subst.
    exists t, (update (group_temperature t th) th g). split; [now split|].
    left. now split.
  - apply rbind_Ok_inv in H as (members & Hm & H).
    apply rbind_Ok_inv in H as (kind & Hk & H). inversion H; subst; clear H.
    assert (Hne : t <> BAD_TYPE).
    { intros ->. simpl in Hm. apply rbind_Ok_inv in Hm as (? & _ & ?). discriminate. }
    eexists t, _. split; [now split|]. right. split; [reflexivity|].
    split; [reflexivity|].
    unfold update_node, set_groups. cbn [m_groups m_group_nodes m_tabulate
      m_table_min m_table_max m_table_del m_pairs m_etai m_etafac m_nDei m_Deifac
      m_nDij m_Dijfac m_Dim].
    rewrite insert_app_r_alt by lia. rewrite Nat.sub_diag. reflexivity.
Qed.

Lemma cache_ok_update_node (db : CollisionDBNew G) (l : nat) (g : G) :
  cache_ok db -> cache_ok (update_node l g db).
Proof.
  intros Hc name l' Hl. simpl in *. rewrite length_insert. now apply Hc.
Qed.

Lemma cache_ok_insert (db : CollisionDBNew G) (name : string) (t : GroupType) (g : G) :
  cache_ok db -> valid_name name t ->
  cache_ok (set_groups (<[name := length (m_group_nodes db)]> (m_groups db))
              (m_group_nodes db ++ [g]) db).
Proof.
  intros Hc Hv name' l' Hl. simpl in *. rewrite length_app. simpl.
  destruct (decide (name = name')) as [<-|Hne].
  - rewrite lookup_insert_eq in Hl. inversion Hl; subst. split; [lia | eauto].
  - rewrite lookup_insert_ne in Hl by assumption.
    destruct (Hc name' l' Hl). split; [lia | assumption].
Qed.

(** [group] changes the cache only. *)
Lemma group_frame (th : Thermodynamics) (db db' : CollisionDBNew G)
    (name : string) (l : nat) :
  cache_ok db ->
  group NDEBUG name th db = Ok (l, db') ->
  cache_ok db' /\ m_pairs db' = m_pairs db /\ m_etafac db' = m_etafac db.
Proof.
  intros Hc H.
  destruct (group_Ok_inv th db db' name l Hc H) as (t & g & Hv & [[_ ->]|(_ & -> & ->)]).
  - split; [now apply cache_ok_update_node | now split].
  - split; [now apply (cache_ok_insert db name t) | now split].
Qed.

Lemma etai_frame (th : Thermodynamics) (db db' : CollisionDBNew G) (v : list float) :
  cache_ok db ->
  etai NDEBUG th db = Ok (v, db') ->
  cache_ok db' /\ m_pairs db' = m_pairs db /\ m_etafac db' = m_etafac db.
Proof.
  intros Hc H. unfold etai, Q22ii in H.
  apply rbind_Ok_inv in H as ([q db1] & H1 & H).
  apply rbind_Ok_inv in H1 as ([l db2] & Hg & H1).
  apply rbind_Ok_inv in H1 as (g & _ & H1). inversion H1; subst; clear H1.
  apply rbind_Ok_inv in H as (v' & _ & H). inversion H; subst; clear H.
  destruct (group_frame th db db1 _ l Hc Hg) as (Hc1 & Hp & He).
  split; [|now split]. intros name l' Hl. apply (Hc1 name l' Hl).
Qed.

End Reachable.

(** ** The checks of the table data *)

Lemma int_of_double_cases (x : float) :
  (exists n, int_of_double x = Ok n) \/ int_of_double x = Undefined.
Proof.
  unfold int_of_double. destruct (trunc_double x) as [z|]; [|now right].
  destruct ((INT_MIN <=? z)%Z && (z <=? INT_MAX)%Z); [left; eauto | now right].
Qed.

Lemma check_table_bounds (a b d : float) :
  bounds_valid a b d = false ->
  exists msg,
    check_table true a b d = ParseError msg /\
    ((0 <? a)%float = false -> msg = "Tmin must be positive.") /\
    ((0 <? a)%float = true -> (0 <? b)%float = false ->
     msg = "Tmax must be positive.") /\
    ((0 <? a)%float = true -> (0 <? b)%float = true -> (0 <? d)%float = false ->
     msg = "dT must be positive.").
Proof.
  unfold bounds_valid, check_table, parseCheck. change (0.0)%float with 0%float.
  destruct (0 <? a)%float; simpl.
  2: { intros _. eexists. split; [reflexivity|]. repeat split; congruence. }
  destruct (0 <? b)%float; simpl.
  2: { intros _. eexists. split; [reflexivity|]. repeat split; congruence. }
  destruct (0 <? d)%float; simpl.
  2: { intros _. eexists. split; [reflexivity|]. repeat split; congruence. }
  destruct (a <? b)%float; simpl; [discriminate|].
  intros _. eexists. split; [reflexivity|]. repeat split; congruence.
Qed.

Lemma check_table_span (a b d : float) (n : Z) :
  bounds_valid a b d = true ->
  int_of_double (table_span a b d) = Ok n ->
  check_table true a b d
  = if near_whole (table_span a b d) n then Ok tt
    else ParseError "(Tmax - Tmin)/dT must be a positive whole number.".
Proof.
  unfold bounds_valid, check_table, parseCheck, near_whole, table_span.
  change (0.0)%float with 0%float.
  destruct (0 <? a)%float; [|discriminate].
  destruct (0 <? b)%float; [|discriminate].
  destruct (0 <? d)%float; [|discriminate].
  destruct (a <? b)%float; [|discriminate].
  intros _ Hn. simpl. rewrite Hn. reflexivity.
Qed.

Lemma check_default_grid : check_table true 300 20000 100 = Ok tt.
Proof. vm_compute. reflexivity. Qed.

Lemma check_bad_grid :
  check_table true 300 20050 100
  = ParseError "(Tmax - Tmin)/dT must be a positive whole number.".
Proof. vm_compute. reflexivity. Qed.

(** ** The diffusion factors *)

Lemma Forall2_via {A B C} (P : A -> C -> Prop) (Q : B -> C -> Prop)
    (R : A -> B -> Prop) (l : list A) (m : list B) (k : list C) :
  (forall a b c, P a c -> Q b c -> R a b) ->
  Forall2 P l k -> Forall2 Q m k -> Forall2 R l m.
Proof.
  intros HR HP. revert m. induction HP as [|a c l k Hac _ IH]; intros m HQ.
  - inversion HQ. constructor.
  - inversion HQ as [|b c' m' k' Hbc HQ']; subst. constructor; eauto.
Qed.

(** The rows of the heavy species are what follows the electron rows. *)
Lemma heavy_rows_drop (th : Thermodynamics) :
  thermo_ok th ->
  drop (electrons th * nSpecies th) (pair_indices (nSpecies th))
  = flat_map (pair_row (nSpecies th)) (seq (electrons th) (nSpecies th - electrons th)).
Proof.
  intros Hok. unfold pair_indices.
  replace (seq 0 (nSpecies th))
    with (seq 0 (electrons th) ++ seq (electrons th) (nSpecies th - electrons th)).
  - rewrite flat_map_app. apply drop_app_length'. apply heavy_block_start.
  - rewrite <- seq_app. f_equal. unfold thermo_ok in Hok. lia.
Qed.

Lemma electron_rows_take (th : Thermodynamics) :
  thermo_ok th ->
  take (electrons th * nSpecies th) (pair_indices (nSpecies th))
  = flat_map (pair_row (nSpecies th)) (seq 0 (electrons th)).
Proof.
  intros Hok. unfold pair_indices.
  replace (seq 0 (nSpecies th))
    with (seq 0 (electrons th) ++ seq (electrons th) (nSpecies th - electrons th)).
  - rewrite flat_map_app. apply take_app_length'. apply heavy_block_start.
  - rewrite <- seq_app. f_equal. unfold thermo_ok in Hok. lia.
Qed.

Section Factors.

Variables (RU TWOPI SQRT2 indeterminate : float).

Lemma make_Deifac_spec (th : Thermodynamics) :
  thermo_ok th ->
  make_Deifac RU TWOPI SQRT2 th
    (replicate (nSpecies th * electrons th) indeterminate)
  = Ok (Deifac_spec RU TWOPI SQRT2 th).
Proof.
  intros Hok. unfold make_Deifac, Deifac_spec. rewrite (thermo_ok_k th Hok).
  unfold thermo_ok in Hok. unfold electrons in *.
  destruct (hasElectrons th).
  2: { simpl. now rewrite Nat.mul_0_r. }
  rewrite Nat.mul_1_r.
  destruct (species th) as [|s0 sp] eqn:Hsp.
  { unfold nSpecies in Hok. rewrite Hsp in Hok. simpl in Hok. lia. }
  set (c := Dei_value RU TWOPI (sp_molecularWeight s0)).
  assert (Hmw : speciesMw th 0 = Ok (sp_molecularWeight s0)).
  { apply speciesMw_Some. now rewrite Hsp. }
  destruct (for_range_inv
    (fun i (a : list float) =>
       a = replicate i c ++ replicate (nSpecies th - i) indeterminate)
    0 (nSpecies th)
    (fun i Deifac => mw0 ← speciesMw th 0;
       array_set Deifac i (3 / 16 * PrimFloat.sqrt (TWOPI * RU / mw0))%float)
    (replicate (nSpecies th) indeterminate)) as (a & Hl & Ha).
  - lia.
  - simpl. now rewrite Nat.sub_0_r.
  - intros i a Hi ->. rewrite Hmw, rbind_Ok.
    eexists. split.
    + apply array_set_lt. rewrite length_app, !length_replicate. lia.
    + rewrite insert_app_r_alt by (rewrite length_replicate; lia).
      rewrite length_replicate, Nat.sub_diag.
      replace (nSpecies th - i) with (S (nSpecies th - S i)) by lia.
      rewrite (replicate_S_end i c), <- app_assoc. reflexivity.
  - rewrite Hl, rbind_Ok. subst a. rewrite Nat.sub_diag.
    change (replicate 0 indeterminate) with (@nil float). rewrite app_nil_r.
    change (0 <? 1) with true. cbn iota.
    assert (H0 : replicate (nSpecies th) c !! 0 = Some c).
    { apply lookup_replicate_2. lia. }
    rewrite (at_index_Some _ _ _ H0), rbind_Ok.
    apply array_set_lt. rewrite length_replicate. lia.
Qed.

Lemma make_Dijfac_spec (th : Thermodynamics) :
  thermo_ok th ->
  exists a,
    make_Dijfac RU TWOPI th
      (replicate (nHeavy th * (nHeavy th + 1) / 2) indeterminate) = Ok a /\
    Forall2 (Dij_at RU TWOPI th) a
      (flat_map (pair_row (nSpecies th))
         (seq (electrons th) (nSpecies th - electrons th))).
Proof.
  intros Hok. unfold make_Dijfac. rewrite (thermo_ok_k th Hok).
  set (ns := nSpecies th). set (k := electrons th).
  set (N := nHeavy th * (nHeavy th + 1) / 2).
  assert (Hk : k <= ns) by exact Hok.
  assert (HnH : nHeavy th = ns - k) by reflexivity.
  set (rows := fun i => flat_map (pair_row ns) (seq k (i - k))).
  set (inner := fun (i j : nat) (st : list float * nat) =>
    let '(Dijfac, index) := st in
    mwi ← speciesMw th i; mwj ← speciesMw th j;
    Dijfac ← array_set Dijfac index
      (3 / 16 * PrimFloat.sqrt (TWOPI * RU * (mwi + mwj) / (mwi * mwj)))%float;
    Ok (Dijfac, S index)).
  destruct (for_range_inv
    (fun i (st : list float * nat) =>
       length st.1 = N /\ st.2 + (ns - i) * (ns - i + 1) / 2 = N /\
       Forall2 (Dij_at RU TWOPI th) (take st.2 st.1) (rows i))
    k ns (fun i st => for_range i ns (inner i) st)
    (replicate N indeterminate, 0)) as ([a idx] & Hl & Hlen & Hidx & HF).
  - exact Hk.
  - cbn [fst snd]. split; [apply length_replicate|].
    split; [unfold N; now rewrite HnH|].
    unfold rows. rewrite Nat.sub_diag. constructor.
  - intros i [a0 idx0] Hi (Hlen0 & Hidx0 & HF0). cbn [fst snd] in Hlen0, Hidx0, HF0.
    destruct (for_range_inv
      (fun j (st : list float * nat) =>
         length st.1 = N /\
         st.2 + (ns - j) + (ns - S i) * (ns - S i + 1) / 2 = N /\
         Forall2 (Dij_at RU TWOPI th) (take st.2 st.1) (rows i ++ (pair i <$> seq i (j - i))))
      i ns (inner i) (a0, idx0)) as (st & Hst & Hlen' & Hidx' & HF').
    + lia.
    + cbn [fst snd]. split; [exact Hlen0|]. split.
      * rewrite <- Hidx0.
        replace (ns - i) with (S (ns - S i)) at 2 3 by lia. rewrite tri_S. lia.
      * rewrite Nat.sub_diag. simpl. now rewrite app_nil_r.
    + intros j [a1 idx1] Hj (Hlen1 & Hidx1 & HF1). cbn [fst snd] in Hlen1, Hidx1, HF1.
      unfold inner.
      destruct (lookup_lt_is_Some_2 (species th) i) as [si Hsi]; [change (i < ns); lia|].
      destruct (lookup_lt_is_Some_2 (species th) j) as [sj Hsj]; [change (j < ns); lia|].
      rewrite (speciesMw_Some th i si Hsi), rbind_Ok.
      rewrite (speciesMw_Some th j sj Hsj), rbind_Ok.
      rewrite array_set_lt by lia. rewrite rbind_Ok.
      eexists. split; [reflexivity|]. cbn [fst snd].
      split; [rewrite length_insert; lia|]. split; [lia|].
      replace (S j - i) with (S (j - i)) by lia.
      rewrite pair_row_S, app_assoc.
      erewrite take_S_r by (apply list_lookup_insert_eq; lia).
      rewrite take_insert_ge by lia.
      apply Forall2_app; [exact HF1|]. constructor; [|constructor].
      exists si, sj. cbn [fst snd]. replace (i + (j - i)) with j by lia.
      now repeat split.
    + exists st. split; [exact Hst|]. split; [exact Hlen'|]. split.
      * rewrite Nat.sub_diag, Nat.add_0_r in Hidx'. exact Hidx'.
      * unfold rows in *. replace (S i - k) with (S (i - k)) by lia.
        rewrite seq_S, flat_map_app. simpl flat_map. rewrite app_nil_r.
        replace (k + (i - k)) with i by lia. exact HF'.
  - cbn [fst snd] in Hlen, Hidx, HF. exists a. split.
    + change ((for_range k ns (fun i st => for_range i ns (inner i) st)
                 (replicate N indeterminate, 0)
               ≫= fun '(Dijfac, _) => Ok Dijfac) = Ok a).
      rewrite Hl. reflexivity.
    + rewrite Nat.sub_diag in Hidx. change (0 * (0 + 1) / 2) with 0 in Hidx.
      rewrite take_ge in HF by lia. exact HF.
Qed.

End Factors.

(** ** The states of the whole interface *)

Section AllStates.

Context {G : Type} `{!CollisionGroup G}.
Variables (PI RU TWOPI SQRT2 indeterminate : float) (NDEBUG : bool).

Local Abbreviation new := (CollisionDBNew_new (G:=G) PI RU TWOPI SQRT2 indeterminate).
Local Abbreviation reach_all :=
  (reachable_all PI RU TWOPI SQRT2 indeterminate NDEBUG).
Local Abbreviation inv_all := (db_inv_all PI RU TWOPI SQRT2).

Lemma new_Ok_fields (root : XmlElement) (th : Thermodynamics) (db : CollisionDBNew G) :
  new root th = Ok db ->
  exists pairs etafac Deifac Dijfac,
    make_pairs root (species th) = Ok pairs /\
    make_etafac PI RU th (replicate (nHeavy th) indeterminate) = Ok etafac /\
    make_Deifac RU TWOPI SQRT2 th
      (replicate (nSpecies th * electrons th) indeterminate) = Ok Deifac /\
    make_Dijfac RU TWOPI th
      (replicate (nHeavy th * (nHeavy th + 1) / 2) indeterminate) = Ok Dijfac /\
    db = mkDB (getAttribute (attr_tabulate root) true)
           (getAttribute (attr_Tmin root) 300%float)
           (getAttribute (attr_Tmax root) 20000%float)
           (getAttribute (attr_dT root) 100%float) pairs ∅ []
           (replicate (nHeavy th) indeterminate) etafac
           (replicate (nSpecies th * electrons th) indeterminate) Deifac
           (replicate (nHeavy th * (nHeavy th + 1) / 2) indeterminate) Dijfac
           (replicate (nSpecies th) indeterminate).
Proof.
  unfold CollisionDBNew_new. intros H.
  apply rbind_Ok_inv in H as ([] & _ & H).
  apply rbind_Ok_inv in H as (pairs & Hp & H).
  apply rbind_Ok_inv in H as (etafac & He & H).
  apply rbind_Ok_inv in H as (Dei & Hdei & H).
  apply rbind_Ok_inv in H as (Dij & Hdij & H).
  inversion H; subst; clear H. exists pairs, etafac, Dei, Dij. now repeat split.
Qed.

Lemma new_inv_all (root : XmlElement) (th : Thermodynamics) (db : CollisionDBNew G) :
  thermo_ok th ->
  new root th = Ok db ->
  inv_all root th db.
Proof.
  intros Hok Hnew.
  destruct (new_Ok_fields root th db Hnew)
    as (pairs & etafac & Dei & Dij & Hp & He & Hdei & Hdij & ->).
  destruct (make_pairs_spec root (species th)) as (pairs' & Hp' & HF).
  rewrite Hp in Hp'. inversion Hp'; subst pairs'.
  rewrite (make_etafac_spec PI RU indeterminate th Hok) in He. inversion He; subst.
  rewrite (make_Deifac_spec RU TWOPI SQRT2 indeterminate th Hok) in Hdei.
  inversion Hdei; subst.
  destruct (make_Dijfac_spec RU TWOPI indeterminate th Hok) as (Dij' & HD & HFD).
  rewrite Hdij in HD. inversion HD; subst Dij'.
  split; [|split].
  - split; [exact HF|]. split; [reflexivity|].
    intros name l Hl. simpl in Hl. now rewrite lookup_empty in Hl.
  - unfold static_ok. simpl. repeat split; try reflexivity.
    + rewrite <- (heavy_rows_drop th Hok) in HFD.
      apply (Forall2_via (Dij_at RU TWOPI th) (is_pair root (species th))
               (Dij_of_pair RU TWOPI) _ _
               (drop (electrons th * nSpecies th) (pair_indices (nSpecies th)))).
      * intros v p [i j] (si & sj & Hi & Hj & ->) (Hi' & Hj' & _).
        cbn [fst snd] in *. rewrite Hi in Hi'. rewrite Hj in Hj'.
        inversion Hi'; inversion Hj'; subst. reflexivity.
      * exact HFD.
      * apply Forall2_drop. exact HF.
    + apply length_replicate.
  - split; [|reflexivity]. intros n1 n2 l Hl. simpl in Hl.
    now rewrite lookup_empty in Hl.
Qed.

Lemma inv_all_set_etai (root : XmlElement) (th : Thermodynamics)
    (db : CollisionDBNew G) (v : list float) :
  inv_all root th db -> inv_all root th (set_etai v db).
Proof. intros H. exact H. Qed.

Lemma inv_all_set_Dim (root : XmlElement) (th : Thermodynamics)
    (db : CollisionDBNew G) (v : list float) :
  inv_all root th db -> inv_all root th (set_Dim v db).
Proof. intros H. exact H. Qed.

Lemma inv_all_set_nDij (root : XmlElement) (th : Thermodynamics)
    (db : CollisionDBNew G) (v : list float) :
  inv_all root th db -> inv_all root th (set_nDij v db).
Proof. intros H. exact H. Qed.

Lemma inv_all_set_nDei (root : XmlElement) (th : Thermodynamics)
    (db : CollisionDBNew G) (v : list float) :
  length v = nSpecies th * electrons th ->
  inv_all root th db -> inv_all root th (set_nDei v db).
Proof.
  intros Hv (Hinv & Hst & Hc). split; [exact Hinv|]. split; [|exact Hc].
  destruct Hst as (H1 & H2 & H3 & H4 & H5 & H6 & _). now repeat split.
Qed.

Lemma inv_all_group (root : XmlElement) (th0 th : Thermodynamics)
    (db db' : CollisionDBNew G) (name : string) (l : nat) :
  inv_all root th0 db ->
  group NDEBUG name th db = Ok (l, db') ->
  inv_all root th0 db'.
Proof.
  intros ((Hp & He & Hc) & Hst & Hinj & Hsize) Hg.
  destruct (group_Ok_inv NDEBUG th db db' name l Hc Hg)
    as (t & g & Hv & [[Hl ->]|(Hl & -> & ->)]).
  - split; [|split].
    + split; [exact Hp|]. split; [exact He|]. now apply cache_ok_update_node.
    + exact Hst.
    + split; [exact Hinj|]. simpl. now rewrite length_insert.
  - split; [|split].
    + split; [exact Hp|]. split; [exact He|]. now apply (cache_ok_insert db name t).
    + exact Hst.
    + split.
      * intros n1 n2 l'. simpl.
        destruct (decide (name = n1)) as [<-|Hn1];
          destruct (decide (name = n2)) as [<-|Hn2]; [reflexivity| | |].
        -- rewrite lookup_insert_eq, lookup_insert_ne by assumption.
           intros H1 H2. inversion H1; subst l'.
           destruct (Hc n2 _ H2) as [Hlt _]. lia.
        -- rewrite lookup_insert_eq, lookup_insert_ne by assumption.
           intros H1 H2. inversion H2; subst l'.
           destruct (Hc n1 _ H1) as [Hlt _]. lia.
        -- rewrite !lookup_insert_ne by assumption. apply Hinj.
      * simpl. rewrite map_size_insert_None by assumption.
        rewrite length_app. simpl. lia.
Qed.

Lemma accessor_Ok_inv (f : Thermodynamics -> CollisionDBNew G
                            -> result (list float * CollisionDBNew G))
    (gname : string) (th : Thermodynamics) (db db' : CollisionDBNew G)
    (q : list float) :
  (f th db = ('(l, db1) ← group NDEBUG gname th db;
              g ← at_index (m_group_nodes db1) l; Ok (array g, db1))) ->
  f th db = Ok (q, db') ->
  exists l g, group NDEBUG gname th db = Ok (l, db') /\
    m_group_nodes db' !! l = Some g /\ q = array g.
Proof.
  intros -> H.
  apply rbind_Ok_inv in H as ([l db1] & Hg & H).
  apply rbind_Ok_inv in H as (g & Hn & H). inversion H; subst; clear H.
  exists l, g. split; [exact Hg|]. split; [|reflexivity].
  unfold at_index in Hn. destruct (m_group_nodes db' !! l); [|discriminate].
  now inversion Hn.
Qed.

Lemma array_div_length (a b v : list float) :
  array_div a b = Ok v -> length v = length a /\ length b = length a.
Proof.
  unfold array_div. destruct (decide (length a = length b)) as [Heq|]; [|discriminate].
  intros H. inversion H. rewrite length_zip_with. lia.
Qed.

Lemma inv_all_etai (root : XmlElement) (th0 th : Thermodynamics)
    (db db' : CollisionDBNew G) (v : list float) :
  inv_all root th0 db ->
  etai NDEBUG th db = Ok (v, db') ->
  inv_all root th0 db'.
Proof.
  intros Hinv H. unfold etai in H.
  apply rbind_Ok_inv in H as ([q db1] & Hq & H).
  apply rbind_Ok_inv in H as (v' & _ & H). inversion H; subst; clear H.
  destruct (accessor_Ok_inv (Q22ii NDEBUG) "Q22ii" th db db1 q eq_refl Hq)
    as (l & g & Hg & _).
  apply inv_all_set_etai. exact (inv_all_group root th0 th db db1 _ l Hinv Hg).
Qed.

Lemma inv_all_nDij (root : XmlElement) (th0 th : Thermodynamics)
    (db db' : CollisionDBNew G) (v : list float) :
  inv_all root th0 db ->
  nDij NDEBUG th db = Ok (v, db') ->
  inv_all root th0 db'.
Proof.
  intros Hinv H. unfold nDij in H.
  apply rbind_Ok_inv in H as ([q db1] & Hq & H).
  apply rbind_Ok_inv in H as (v' & _ & H). inversion H; subst; clear H.
  destruct (accessor_Ok_inv (Q11ij NDEBUG) "Q11ij" th db db1 q eq_refl Hq)
    as (l & g & Hg & _).
  apply inv_all_set_nDij. exact (inv_all_group root th0 th db db1 _ l Hinv Hg).
Qed.

Lemma inv_all_nDei (root : XmlElement) (th0 th : Thermodynamics)
    (db db' : CollisionDBNew G) (v : list float) :
  inv_all root th0 db ->
  nDei NDEBUG th db = Ok (v, db') ->
  inv_all root th0 db'.
Proof.
  intros Hinv H. unfold nDei in H.
  destruct (0 <? length (m_nDei db))%nat.
  2: { inversion H; subst. exact Hinv. }
  apply rbind_Ok_inv in H as ([q db1] & Hq & H).
  apply rbind_Ok_inv in H as (v' & Hdiv & H). inversion H; subst; clear H.
  destruct (accessor_Ok_inv (Q11ei NDEBUG) "Q11ei" th db db1 q eq_refl Hq)
    as (l & g & Hg & _).
  pose proof (inv_all_group root th0 th db db1 _ l Hinv Hg) as Hinv1.
  apply inv_all_set_nDei; [|exact Hinv1].
  apply array_div_length in Hdiv as [Hlen _].
  unfold array_scale in Hlen. rewrite length_fmap in Hlen. rewrite Hlen.
  destruct Hinv1 as (_ & (_ & _ & _ & _ & HD & _) & _). rewrite HD.
  unfold Deifac_spec, electrons. destruct (hasElectrons th0).
  - unfold nSpecies. destruct (species th0); simpl; [reflexivity|].
    rewrite length_replicate. lia.
  - simpl. lia.
Qed.

Lemma reachable_all_inv (root : XmlElement) (th0 : Thermodynamics)
    (db : CollisionDBNew G) :
  thermo_ok th0 ->
  reach_all root th0 db ->
  inv_all root th0 db.
Proof.
  intros Hok. induction 1 as [db Hnew | db name th l db' _ IH _ Hg
    | db th v db' _ IH _ He | db th v db' _ IH _ He | db th v db' _ IH _ He
    | db th v db' _ IH _ Hd].
  - now apply new_inv_all.
  - exact (inv_all_group root th0 th db db' name l IH Hg).
  - exact (inv_all_etai root th0 th db db' v IH He).
  - exact (inv_all_nDei root th0 th db db' v IH He).
  - exact (inv_all_nDij root th0 th db db' v IH He).
  - unfold Dim in Hd. inversion Hd; subst. now apply inv_all_set_Dim.
Qed.

Lemma inv_all_mixture (root : XmlElement) (th0 th : Thermodynamics)
    (db : CollisionDBNew G) :
  thermo_ok th0 -> same_mixture th0 th -> inv_all root th0 db ->
  thermo_ok th /\ inv_all root th db.
Proof.
  intros Hok [Hsp He] Hinv.
  assert (Hns : nSpecies th0 = nSpecies th) by (unfold nSpecies; now rewrite Hsp).
  assert (Hel : electrons th0 = electrons th) by (unfold electrons; now rewrite He).
  split. { unfold thermo_ok. now rewrite <- Hns, <- Hel. }
  destruct Hinv as ((Hp & Hf & Hc) & (H1 & H2 & H3 & H4 & H5 & H6 & H7) & Hinj).
  split; [|split; [|exact Hinj]].
  - unfold db_inv. rewrite <- Hsp, <- Hns. split; [exact Hp|]. split; [|exact Hc].
    rewrite Hf. unfold etafac_spec. now rewrite Hsp, Hel.
  - unfold static_ok. rewrite <- Hns, <- Hel. repeat split; try assumption.
    rewrite H5. unfold Deifac_spec. now rewrite Hsp, He, Hns.
Qed.

Lemma accessor_cache_ok (f : Thermodynamics -> CollisionDBNew G
                             -> result (list float * CollisionDBNew G))
    (gname : string) (th : Thermodynamics) (db db' : CollisionDBNew G)
    (q : list float) :
  (f th db = ('(l, db1) ← group NDEBUG gname th db;
              g ← at_index (m_group_nodes db1) l; Ok (array g, db1))) ->
  cache_ok db ->
  f th db = Ok (q, db') ->
  cache_ok db'.
Proof.
  intros Hf Hc H.
  destruct (accessor_Ok_inv f gname th db db' q Hf H) as (l & g & Hg & _).
  now destruct (group_frame NDEBUG th db db' gname l Hc Hg).
Qed.

(** The names of the cache are valid in every state, whatever the mixture. *)
Lemma reachable_all_cache_ok (root : XmlElement) (th0 : Thermodynamics)
    (db : CollisionDBNew G) :
  reach_all root th0 db -> cache_ok db.
Proof.
  induction 1 as [db Hnew | db name th l db' _ IH _ Hg
    | db th v db' _ IH _ He | db th v db' _ IH _ He | db th v db' _ IH _ He
    | db th v db' _ IH _ Hd].
  - apply new_Ok_inv in Hnew as (_ & _ & _ & Hgr & _).
    intros name l Hl. rewrite Hgr in Hl. now rewrite lookup_empty in Hl.
  - now destruct (group_frame NDEBUG th db db' name l IH Hg).
  - now destruct (etai_frame NDEBUG th db db' v IH He).
  - unfold nDei in He. destruct (0 <? length (m_nDei db))%nat.
    2: { inversion He; subst. exact IH. }
    apply rbind_Ok_inv in He as ([q db1] & Hq & He).
    apply rbind_Ok_inv in He as (v' & _ & He). inversion He; subst; clear He.
    intros name l Hl.
    exact (accessor_cache_ok (Q11ei NDEBUG) "Q11ei" th db db1 q eq_refl IH Hq name l Hl).
  - unfold nDij in He.
    apply rbind_Ok_inv in He as ([q db1] & Hq & He).
    apply rbind_Ok_inv in He as (v' & _ & He). inversion He; subst; clear He.
    intros name l Hl.
    exact (accessor_cache_ok (Q11ij NDEBUG) "Q11ij" th db db1 q eq_refl IH Hq name l Hl).
  - unfold Dim in Hd. inversion Hd; subst. exact IH.
Qed.

(** The invariants of the pair list, the eta factors and the cache in every
    state, at any current state of the same mixture. *)
Lemma reachable_all_db_inv (root : XmlElement) (th0 th : Thermodynamics)
    (db : CollisionDBNew G) :
  thermo_ok th0 ->
  reach_all root th0 db ->
  same_mixture th0 th ->
  thermo_ok th /\ db_inv PI RU root th db.
Proof.
  intros Hok Hr Hmix.
  destruct (inv_all_mixture root th0 th db Hok Hmix (reachable_all_inv root th0 db Hok Hr))
    as (Hok' & Hinv & _).
  now split.
Qed.

End AllStates.

(** ** The properties of the database *)

Section Properties.

Context {G : Type} `{!CollisionGroup G}.
Variables (PI RU TWOPI SQRT2 indeterminate : float) (NDEBUG : bool).

Local Abbreviation new := (CollisionDBNew_new (G:=G) PI RU TWOPI SQRT2 indeterminate).
Local Abbreviation reach := (reachable_all PI RU TWOPI SQRT2 indeterminate NDEBUG).
Local Abbreviation new_group db :=
  (CollisionGroup_new (m_tabulate db) (m_table_min db) (m_table_max db)
     (m_table_del db)).

Lemma group_temperature_valid (t : GroupType) (th : Thermodynamics) :
  group_temperature t th
  = match t with EE | EI => Te th | II | IJ | BAD_TYPE => T th end.
Proof. destruct t; reflexivity. Qed.

(** C1: on a cache miss, [group] on a valid name hands to the new group the
    first e pairs of the species-pair list for EE, the first e*ns pairs for
    EI, the pairs from index e*ns on for IJ, and for II a separate list made
    of the ns-e pairs (i,i) of the heavy species i = e, ..., ns-1, in
    ascending order (e = 1 with electrons and 0 without, ns = nSpecies). *)
Theorem group_miss_selects_members (root : XmlElement) (th0 th : Thermodynamics)
    (db : CollisionDBNew G) (name : string) (t : GroupType) :
  thermo_ok th0 ->
  reach root th0 db ->
  same_mixture th0 th ->
  valid_name name t ->
  m_groups db !! name = None ->
  exists kind members l db',
    group NDEBUG name th db = Ok (l, db') /\
    m_group_nodes db' !! l
      = Some (update (group_temperature t th) th
                (manage members kind (new_group db))) /\
    Forall2 (is_pair root (species th)) (m_pairs db) (pair_indices (nSpecies th)) /\
    let ns := nSpecies th in
    let e := if hasElectrons th then 1 else 0 in
    match t with
    | EE => members = take e (m_pairs db)
    | EI => members = take (e * ns) (m_pairs db)
    | IJ => members = drop (e * ns) (m_pairs db)
    | II => Forall2 (is_pair root (species th)) members
              ((fun i => (i, i)) <$> seq e (ns - e)) /\
            Forall (fun p => p ∈ m_pairs db) members
    | BAD_TYPE => False
    end.
Proof.
  intros Hok Hr Hmix Hv Hnone.
  destruct (reachable_all_db_inv _ _ _ _ _ _ root th0 th db Hok Hr Hmix)
    as (Hok' & Hpairs & _ & _).
  destruct (valid_name_split name t Hv) as (p & a & b & -> & <-).
  destruct Hv as [_ Hne].
  destruct (group_miss NDEBUG root th db p a b Hok' Hpairs Hne Hnone)
    as (members & Hspec & Hg).
  eexists p, members, _, _. split; [exact Hg|]. split; [|split; assumption].
  cbn [m_group_nodes set_groups]. apply list_lookup_middle. reflexivity.
Qed.

(** C2: two calls of [group] on the same valid name return the same node of
    the cache, the second call allocates nothing, and each call, hit or miss,
    updates the group at the electron temperature for EE and EI and at the
    heavy temperature for II and IJ, as they are at the time of the call. *)
Theorem group_twice_same_entry (root : XmlElement) (th0 th1 th2 : Thermodynamics)
    (db : CollisionDBNew G) (name : string) (t : GroupType) :
  thermo_ok th0 ->
  reach root th0 db ->
  same_mixture th0 th1 ->
  same_mixture th0 th2 ->
  valid_name name t ->
  let temp th := match t with EE | EI => Te th | II | IJ | BAD_TYPE => T th end in
  exists l db1 db2 g0,
    group NDEBUG name th1 db = Ok (l, db1) /\
    group NDEBUG name th2 db1 = Ok (l, db2) /\
    m_groups db1 !! name = Some l /\
    m_groups db2 = m_groups db1 /\
    length (m_group_nodes db2) = length (m_group_nodes db1) /\
    m_group_nodes db1 !! l = Some (update (temp th1) th1 g0) /\
    m_group_nodes db2 !! l = Some (update (temp th2) th2 (update (temp th1) th1 g0)) /\
    match m_groups db !! name with
    | Some l0 => l0 = l /\ m_group_nodes db !! l = Some g0
    | None => l = length (m_group_nodes db) /\
              exists members kind, g0 = manage members kind (new_group db)
    end.
Proof.
  intros Hok Hr Hmix1 Hmix2 Hv temp.
  destruct (reachable_all_db_inv _ _ _ _ _ _ root th0 th1 db Hok Hr Hmix1)
    as (Hok1 & Hpairs & _ & Hc).
  assert (Htemp : forall th, group_temperature t th = temp th)
    by apply group_temperature_valid.
  assert (Hfirst : exists l db1 g0,
    group NDEBUG name th1 db = Ok (l, db1) /\
    m_groups db1 !! name = Some l /\
    m_group_nodes db1 !! l = Some (update (temp th1) th1 g0) /\
    match m_groups db !! name with
    | Some l0 => l0 = l /\ m_group_nodes db !! l = Some g0
    | None => l = length (m_group_nodes db) /\
              exists members kind, g0 = manage members kind (new_group db)
    end).
  { destruct (m_groups db !! name) as [l|] eqn:Hl.
    - destruct (group_hit NDEBUG th1 db name t l Hc Hv Hl) as (g & Hg & Hcall).
      rewrite Htemp in Hcall. eexists l, _, g. split; [exact Hcall|].
      split; [exact Hl|]. split; [|now split].
      cbn [m_group_nodes update_node set_groups].
      apply list_lookup_insert_eq. eapply lookup_lt_Some, Hg.
    - destruct (valid_name_split name t Hv) as (p & a & b & -> & <-).
      destruct (group_miss NDEBUG root th1 db p a b Hok1 Hpairs (proj2 Hv) Hl)
        as (members & _ & Hcall).
      rewrite Htemp in Hcall. eexists _, _, _. split; [exact Hcall|].
      cbn [m_groups m_group_nodes set_groups]. split; [apply lookup_insert_eq|].
      split; [now apply list_lookup_middle|]. split; [reflexivity | eauto]. }
  destruct Hfirst as (l & db1 & g0 & Hcall1 & Hl1 & Hn1 & Hcase).
  destruct (group_frame NDEBUG th1 db db1 name l Hc Hcall1) as (Hc1 & _ & _).
  destruct (group_hit NDEBUG th2 db1 name t l Hc1 Hv Hl1) as (g1 & Hg1 & Hcall2).
  rewrite Hn1 in Hg1. inversion Hg1; subst g1. rewrite Htemp in Hcall2.
  eexists l, db1, _, g0. split; [exact Hcall1|]. split; [exact Hcall2|].
  split; [exact Hl1|]. split; [reflexivity|].
  cbn [m_group_nodes update_node set_groups]. split; [apply length_insert|].
  split; [exact Hn1|]. split; [|exact Hcase].
  apply list_lookup_insert_eq. eapply lookup_lt_Some, Hn1.
Qed.

(** C5: the species-pair list of a constructed database has n*(n+1)/2
    elements, n the number of species; its element at each position is the
    pair of the species (i,j) at this position of the enumeration with the
    outer index i ascending over 0..n-1 and the inner index j ascending from
    i; the enumeration holds exactly the (i,j) with i <= j < n, in strictly
    increasing lexicographic order. *)
Theorem pairs_triangular (root : XmlElement) (th : Thermodynamics)
    (db : CollisionDBNew G) :
  new root th = Ok db ->
  let n := nSpecies th in
  length (m_pairs db) = n * (n + 1) / 2 /\
  Forall2 (is_pair root (species th)) (m_pairs db) (pair_indices n) /\
  pair_indices n = flat_map (fun i => pair i <$> seq i (n - i)) (seq 0 n) /\
  (forall i j, (i, j) ∈ pair_indices n <-> i <= j < n) /\
  StronglySorted lex_lt (pair_indices n).
Proof.
  intros Hnew n. apply new_Ok_inv in Hnew as (_ & Hp & _).
  destruct (make_pairs_spec root (species th)) as (pairs & Hp' & HF).
  rewrite Hp in Hp'. inversion Hp'; subst pairs.
  split; [exact (pairs_length root _ _ HF)|].
  split; [exact HF|]. split; [reflexivity|].
  split; [intros i j; apply elem_of_pair_indices | apply pair_indices_sorted].
Qed.

(** C8: [Dim] returns an array of nSpecies zeros, whatever the state of the
    database and of the mixture. *)
Theorem Dim_zero (th : Thermodynamics) (db : CollisionDBNew G) :
  exists db', Dim th db = Ok (replicate (nSpecies th) 0%float, db') /\
    m_Dim db' = replicate (nSpecies th) 0%float /\
    length (m_Dim db') = nSpecies th.
Proof.
  eexists. split; [reflexivity|]. simpl. split; [reflexivity|].
  apply length_replicate.
Qed.

(** C9: with [tabulate] set to false the constructor checks nothing of Tmin,
    Tmax and dT: construction succeeds whatever their values. *)
Theorem untabulated_unchecked (th : Thermodynamics)
    (tmin tmax dT : option float) :
  thermo_ok th ->
  exists db, new (mkXml (Some false) tmin tmax dT) th = Ok db /\
    m_tabulate db = false.
Proof.
  intros Hok.
  destruct (new_checked (G:=G) PI RU TWOPI SQRT2 indeterminate
              (mkXml (Some false) tmin tmax dT) th Hok) as (db & Hnew & Htab & _).
  - reflexivity.
  - exists db. now split.
Qed.

(** C10: a name that is only a suffix, of length 2, is a valid name: [group]
    classifies it by this suffix and returns, and on a cache miss the kind it
    gives to [manage] is the empty string. *)
Theorem group_accepts_bare_suffix (root : XmlElement) (th0 th : Thermodynamics)
    (db : CollisionDBNew G) (name : string) (t : GroupType) :
  thermo_ok th0 ->
  reach root th0 db ->
  same_mixture th0 th ->
  In (name, t) [("ee", EE); ("ei", EI); ("ii", II); ("ij", IJ)] ->
  String.length name = 2 /\
  groupType name = Ok t /\
  (exists l db', group NDEBUG name th db = Ok (l, db')) /\
  (m_groups db !! name = None ->
   exists members l db',
     group NDEBUG name th db = Ok (l, db') /\
     m_group_nodes db' !! l
       = Some (update (group_temperature t th) th
                 (manage members EmptyString (new_group db)))).
Proof.
  intros Hok Hr Hmix Hin.
  destruct (reachable_all_db_inv _ _ _ _ _ _ root th0 th db Hok Hr Hmix)
    as (Hok' & Hpairs & _ & Hc).
  assert (Hsplit : exists a b, name = EmptyString +:+ String a (String b EmptyString) /\
            suffix_type a b = t /\ t <> BAD_TYPE).
  { simpl in Hin.
    destruct Hin as [H|[H|[H|[H|[]]]]]; inversion H; subst;
      eexists _, _; (split; [reflexivity|]); (split; [reflexivity | discriminate]). }
  destruct Hsplit as (a & b & -> & <- & Hne).
  assert (Hv : valid_name (EmptyString +:+ String a (String b EmptyString)) (suffix_type a b)).
  { split; [apply groupType_suffix | exact Hne]. }
  split; [reflexivity|]. split; [apply Hv|].
  assert (Hmiss : m_groups db !! (EmptyString +:+ String a (String b EmptyString)) = None ->
    exists members l db',
      group NDEBUG (EmptyString +:+ String a (String b EmptyString)) th db = Ok (l, db') /\
      m_group_nodes db' !! l
        = Some (update (group_temperature (suffix_type a b) th) th
                  (manage members EmptyString (new_group db)))).
  { intros Hnone.
    destruct (group_miss NDEBUG root th db EmptyString a b Hok' Hpairs Hne Hnone)
      as (members & _ & Hg).
    eexists members, _, _. split; [exact Hg|].
    cbn [m_group_nodes set_groups]. now apply list_lookup_middle. }
  split; [|exact Hmiss].
  destruct (m_groups db !! (EmptyString +:+ String a (String b EmptyString))) as [l|] eqn:Hl.
  - destruct (group_hit NDEBUG th db _ _ l Hc Hv Hl) as (g & _ & Hg). eauto.
  - destruct (Hmiss eq_refl) as (? & l & db' & Hg & _). eauto.
Qed.

(** C7, as the code has it: [group] on a name whose two-character suffix is
    not one of ee, ei, ii, ij never returns.  A build with assertions stops
    at the failed assertion [type != BAD_TYPE]; a build without them
    (NDEBUG) writes the two lines naming the suffix, the name and the allowed
    suffixes, then exits with code 1. *)
Theorem group_bad_suffix_stops (root : XmlElement) (th0 th : Thermodynamics)
    (db : CollisionDBNew G) (p : string) (a b : ascii) :
  reach root th0 db ->
  suffix_type a b = BAD_TYPE ->
  let suffix := String a (String b EmptyString) in
  let name := p +:+ suffix in
  group NDEBUG name th db
  = if NDEBUG
    then Exit 1
           [ "Bad collision integral group type: '" +:+ suffix +:+
               "' in group name: '" +:+ name +:+ "'.";
             "Allowed group types are 'ee', 'ei', 'ii', and 'ij'." ]
    else AssertFail "type != BAD_TYPE".
Proof.
  intros Hr Hbad suffix name.
  pose proof (reachable_all_cache_ok _ _ _ _ _ _ root th0 db Hr) as Hc.
  unfold group. subst name suffix. rewrite groupType_suffix, rbind_Ok, Hbad.
  unfold c_assert. destruct NDEBUG; [|reflexivity]. rewrite rbind_Ok.
  destruct (m_groups db !! _) as [l|] eqn:Hl.
  - destruct (Hc _ l Hl) as [_ (t & Ht & Hne)].
    rewrite groupType_suffix, Hbad in Ht. inversion Ht. congruence.
  - cbn [select_members]. rewrite substr_suffix. reflexivity.
Qed.

(** C6: [etai] divides, heavy species by heavy species, sqrt(T) * etafac[i]
    by the i-th value of the group Q22ii, where etafac[i] was set by the
    constructor to 5/16 * sqrt(PI * RU * Mw) for the molar mass of heavy
    species i (the species of index e + i); the value array must have one
    entry per heavy species. *)
Theorem etai_formula (root : XmlElement) (th0 th : Thermodynamics)
    (db : CollisionDBNew G) :
  thermo_ok th0 ->
  reach root th0 db ->
  same_mixture th0 th ->
  let e := if hasElectrons th then 1 else 0 in
  exists l db1 g,
    group NDEBUG "Q22ii" th db = Ok (l, db1) /\
    m_group_nodes db1 !! l = Some g /\
    length (m_etafac db) = nHeavy th /\
    (forall i s, species th !! (e + i) = Some s ->
       m_etafac db !! i
       = Some (5 / 16 * PrimFloat.sqrt (PI * RU * sp_molecularWeight s))%float) /\
    (length (array g) <> nHeavy th -> etai NDEBUG th db = Undefined) /\
    (length (array g) = nHeavy th ->
     exists v,
       etai NDEBUG th db = Ok (v, set_etai v db1) /\
       length v = nHeavy th /\
       forall i s q,
         species th !! (e + i) = Some s ->
         array g !! i = Some q ->
         v !! i = Some (PrimFloat.sqrt (T th)
                        * (5 / 16 * PrimFloat.sqrt (PI * RU * sp_molecularWeight s))
                        / q)%float).
Proof.
  intros Hok Hr Hmix e.
  destruct (reachable_all_db_inv _ _ _ _ _ _ root th0 th db Hok Hr Hmix)
    as (Hok' & Hpairs & Hfac & Hc).
  assert (Hv : valid_name "Q22ii" II) by (split; [reflexivity | discriminate]).
  assert (Hcall : exists l db1 g,
    group NDEBUG "Q22ii" th db = Ok (l, db1) /\ m_group_nodes db1 !! l = Some g).
  { destruct (m_groups db !! "Q22ii") as [l|] eqn:Hl.
    - destruct (group_hit NDEBUG th db _ _ l Hc Hv Hl) as (g & Hg & Hcall).
      eexists l, _, _. split; [exact Hcall|].
      cbn [m_group_nodes update_node set_groups].
      apply list_lookup_insert_eq. eapply lookup_lt_Some, Hg.
    - destruct (group_miss NDEBUG root th db "Q22" "i" "i" Hok' Hpairs
                  ltac:(discriminate) Hl) as (members & _ & Hcall).
      eexists _, _, _. split; [exact Hcall|].
      cbn [m_group_nodes set_groups]. now apply list_lookup_middle. }
  destruct Hcall as (l & db1 & g & Hcall & Hg).
  destruct (group_frame NDEBUG th db db1 _ l Hc Hcall) as (_ & _ & Hfac1).
  assert (Hlen : length (m_etafac db) = nHeavy th).
  { rewrite Hfac. unfold etafac_spec. rewrite length_fmap, length_drop. reflexivity. }
  assert (Hfac_i : forall i s, species th !! (e + i) = Some s ->
     m_etafac db !! i
     = Some (5 / 16 * PrimFloat.sqrt (PI * RU * sp_molecularWeight s))%float).
  { intros i s Hs. rewrite Hfac. unfold etafac_spec.
    rewrite list_lookup_fmap, lookup_drop. change (electrons th) with e.
    now rewrite Hs. }
  exists l, db1, g. split; [exact Hcall|]. split; [exact Hg|].
  split; [exact Hlen|]. split; [exact Hfac_i|].
  unfold etai, Q22ii. rewrite Hcall, rbind_Ok.
  cbn beta iota. rewrite (at_index_Some _ _ _ Hg), !rbind_Ok. cbn beta iota.
  rewrite Hfac1. unfold array_div, array_scale. rewrite length_fmap, Hlen. split.
  - intros Hne. rewrite decide_False by congruence. reflexivity.
  - intros Heq. rewrite decide_True by congruence. rewrite rbind_Ok.
    eexists. split; [reflexivity|]. split.
    + rewrite length_zip_with, length_fmap. lia.
    + intros i s q Hs Hq. rewrite lookup_zip_with, list_lookup_fmap.
      rewrite (Hfac_i i s Hs), Hq. reflexivity.
Qed.

(** C4, as the code has it by design: construction fails on the table data
    only when tabulation is enabled.  With tabulation enabled it stops with a
    parse error whenever Tmin, Tmax or dT is not positive or Tmin is not
    below Tmax (for Tmin, Tmax and dT with the message that names it); with
    these in order and a span (Tmax-Tmin)/dT that fits an int, it stops with
    the whole-number message when the span is within relative tolerance
    1e-15 of neither its integer part nor the next whole number, and it
    returns when the span is within this tolerance of its integer part.  The
    grid 300, 20000, 100 is accepted and the grid 300, 20050, 100 refused. *)
Theorem construction_fails_when (root : XmlElement) (th : Thermodynamics) :
  thermo_ok th ->
  let tabulate := getAttribute (attr_tabulate root) true in
  let tmin := getAttribute (attr_Tmin root) 300%float in
  let tmax := getAttribute (attr_Tmax root) 20000%float in
  let dT := getAttribute (attr_dT root) 100%float in
  let size := table_span tmin tmax dT in
  (tabulate = false -> exists db, new root th = Ok db) /\
  (tabulate = true -> bounds_valid tmin tmax dT = false ->
   exists msg,
     new root th = ParseError msg /\
     ((0 <? tmin)%float = false -> msg = "Tmin must be positive.") /\
     ((0 <? tmin)%float = true -> (0 <? tmax)%float = false ->
      msg = "Tmax must be positive.") /\
     ((0 <? tmin)%float = true -> (0 <? tmax)%float = true ->
      (0 <? dT)%float = false -> msg = "dT must be positive.")) /\
  (forall n,
     tabulate = true -> bounds_valid tmin tmax dT = true ->
     int_of_double size = Ok n ->
     (near_whole size n = false -> near_whole size (n + 1) = false ->
      new root th
      = ParseError "(Tmax - Tmin)/dT must be a positive whole number.") /\
     (near_whole size n = true -> exists db, new root th = Ok db)) /\
  (exists db,
     new (mkXml (Some true) (Some 300%float) (Some 20000%float) (Some 100%float)) th
     = Ok db) /\
  new (mkXml (Some true) (Some 300%float) (Some 20050%float) (Some 100%float)) th
  = ParseError "(Tmax - Tmin)/dT must be a positive whole number.".
Proof.
  intros Hok tabulate tmin tmax dT size.
  assert (Hreturns : check_table tabulate tmin tmax dT = Ok tt ->
                     exists db, new root th = Ok db).
  { intros Hcheck.
    destruct (new_checked (G:=G) PI RU TWOPI SQRT2 indeterminate root th Hok Hcheck)
      as (db & Hnew & _). eauto. }
  assert (Hstops : forall msg, check_table tabulate tmin tmax dT = ParseError msg ->
                   new root th = ParseError msg).
  { intros msg Hcheck. rewrite new_check_stops; fold tabulate tmin tmax dT;
      rewrite Hcheck; [reflexivity | discriminate]. }
  split; [|split; [|split; [|split]]].
  - intros Htab. apply Hreturns. now rewrite Htab.
  - intros Htab Hbounds.
    destruct (check_table_bounds tmin tmax dT Hbounds) as (msg & Hcheck & Hmsg).
    exists msg. split; [|exact Hmsg]. apply Hstops. now rewrite Htab.
  - intros n Htab Hbounds Hn.
    pose proof (check_table_span tmin tmax dT n Hbounds Hn) as Hcheck.
    fold size in Hcheck. split.
    + intros Hfar _. apply Hstops. now rewrite Htab, Hcheck, Hfar.
    + intros Hnear. apply Hreturns. now rewrite Htab, Hcheck, Hnear.
  - destruct (new_checked (G:=G) PI RU TWOPI SQRT2 indeterminate
                (mkXml (Some true) (Some 300%float) (Some 20000%float)
                   (Some 100%float)) th Hok check_default_grid) as (db & Hnew & _).
    eauto.
  - rewrite new_check_stops; cbn [getAttribute attr_tabulate attr_Tmin attr_Tmax
      attr_dT]; rewrite check_bad_grid; [reflexivity | discriminate].
Qed.

End Properties.

(** ** The group classifier *)

Lemma suffix_type_other (a b : ascii) :
  String a (String b EmptyString) ∉ ["ee"; "ei"; "ii"; "ij"] ->
  suffix_type a b = BAD_TYPE.
Proof.
  intros Hnot. unfold suffix_type.
  destruct (Ascii.eqb_spec a "e") as [->|Ha].
  - destruct (Ascii.eqb_spec b "e") as [->|Hb]; [destruct Hnot; set_solver|].
    destruct (Ascii.eqb_spec b "i") as [->|Hb']; [destruct Hnot; set_solver|].
    reflexivity.
  - destruct (Ascii.eqb_spec a "i") as [->|Ha']; [|reflexivity].
    destruct (Ascii.eqb_spec b "i") as [->|Hb]; [destruct Hnot; set_solver|].
    destruct (Ascii.eqb_spec b "j") as [->|Hb']; [destruct Hnot; set_solver|].
    reflexivity.
Qed.

(** C3: [groupType] maps a name ending in ee, ei, ii, ij to EE, EI, II, IJ
    and a name of two characters or more with another suffix to BAD_TYPE; on
    a name shorter than two characters it does not return BAD_TYPE: its
    first read, [name[len-2]], is out of the bounds of the string. *)
Theorem groupType_classification :
  (forall p, groupType (p +:+ "ee") = Ok EE) /\
  (forall p, groupType (p +:+ "ei") = Ok EI) /\
  (forall p, groupType (p +:+ "ii") = Ok II) /\
  (forall p, groupType (p +:+ "ij") = Ok IJ) /\
  (forall p a b,
     String a (String b EmptyString) ∉ ["ee"; "ei"; "ii"; "ij"] ->
     groupType (p +:+ String a (String b EmptyString)) = Ok BAD_TYPE) /\
  (forall name, String.length name < 2 -> groupType name = Undefined) /\
  groupType "i" = Undefined.
Proof.
  repeat split; try (intros p; apply (groupType_suffix p)).
  - intros p a b Hnot. now rewrite groupType_suffix, suffix_type_other.
  - apply groupType_short.
Qed.

(** ** The example mixture *)

Module ExampleFacts.
Import Example.

Lemma thermo_ok_example : thermo_ok thermo.
Proof. unfold thermo_ok, electrons, nSpecies. cbn. lia. Qed.

Lemma new_default : new root_default thermo = Ok db0.
Proof. vm_compute. reflexivity. Qed.

Lemma reachable_all_db0 (ndebug : bool) :
  reachable_all PI RU TWOPI SQRT2 0 ndebug root_default thermo db0.
Proof. apply reach_all_new. exact new_default. Qed.

Lemma same_mixture_hot : same_mixture thermo thermo_hot.
Proof. split; reflexivity. Qed.

Example groupType_names :
  groupType "Q11ee" = Ok EE /\ groupType "Q11ei" = Ok EI /\
  groupType "Q22ii" = Ok II /\ groupType "Q11ij" = Ok IJ /\
  groupType "Q11xx" = Ok BAD_TYPE /\ groupType "Q11ej" = Ok BAD_TYPE /\
  groupType "e" = Undefined /\ groupType EmptyString = Undefined.
Proof. repeat split. Qed.

(** The span of the grid 0.2, 0.5, 0.1 is the double just below 3: its
    integer part is 2 and the check refuses it. *)
Example check_span_below_whole :
  ((0.5 - 0.2) / 0.1)%float = 2.9999999999999996%float /\
  int_of_double 2.9999999999999996 = Ok 2%Z /\
  check_table true 0.2 0.5 0.1
  = ParseError "(Tmax - Tmin)/dT must be a positive whole number.".
Proof. repeat split; vm_compute; reflexivity. Qed.

(** For this grid the span is within 1e-15 of the next whole number, 3, and
    not of its integer part, 2. *)
Example span_just_below_whole :
  near_whole (table_span 0.2 0.5 0.1) 2 = false /\
  near_whole (table_span 0.2 0.5 0.1) 3 = true.
Proof. split; vm_compute; reflexivity. Qed.

(** A span beyond the range of [int]. *)
Example check_span_beyond_int : check_table true 1 100000000001 1 = Undefined.
Proof. vm_compute. reflexivity. Qed.

(** The II group of the example mixture, created at 1000 K. *)
Example group_Q22ii_values :
  exists l db g,
    group false "Q22ii" thermo db0 = Ok (l, db) /\
    m_group_nodes db !! l = Some g /\
    rg_kind g = "Q22" /\ array g = [1000%float; 1000%float].
Proof. eexists _, _, _. vm_compute. repeat split. Qed.

End ExampleFacts.

(** The II group of the example mixture is made of the pairs (1,1), (2,2). *)
Lemma group_miss_selects_members_witness :
  exists kind members l db',
    group false "Q22ii" Example.thermo Example.db0 = Ok (l, db') /\
    m_group_nodes db' !! l
      = Some (update 1000%float Example.thermo
                (manage members kind (CollisionGroup_new true 300 20000 100))) /\
    Forall2 (is_pair Example.root_default Example.mixture)
      (m_pairs Example.db0) (pair_indices 3) /\
    Forall2 (is_pair Example.root_default Example.mixture) members [(1, 1); (2, 2)] /\
    Forall (fun p => p ∈ m_pairs Example.db0) members.
Proof.
  exact (group_miss_selects_members Example.PI Example.RU Example.TWOPI
    Example.SQRT2 0 false Example.root_default Example.thermo Example.thermo
    Example.db0 "Q22ii" II
    ExampleFacts.thermo_ok_example
    (ExampleFacts.reachable_all_db0 false)
    (conj eq_refl eq_refl)
    (conj eq_refl (fun H : II = BAD_TYPE => eq_ind II
       (fun t => match t with II => True | _ => False end) I BAD_TYPE H))
    eq_refl).
Defined.

(** Two calls on Q11ei, the second at other temperatures: the same node,
    updated at the electron temperature of each call. *)
Lemma group_twice_same_entry_witness :
  exists l db1 db2 g0,
    group false "Q11ei" Example.thermo Example.db0 = Ok (l, db1) /\
    group false "Q11ei" Example.thermo_hot db1 = Ok (l, db2) /\
    m_groups db1 !! "Q11ei" = Some l /\
    m_groups db2 = m_groups db1 /\
    length (m_group_nodes db2) = length (m_group_nodes db1) /\
    m_group_nodes db1 !! l = Some (update 2000%float Example.thermo g0) /\
    m_group_nodes db2 !! l
      = Some (update 9000%float Example.thermo_hot
                (update 2000%float Example.thermo g0)).
Proof.
  destruct (group_twice_same_entry Example.PI Example.RU Example.TWOPI
    Example.SQRT2 0 false Example.root_default Example.thermo Example.thermo
    Example.thermo_hot Example.db0 "Q11ei" EI
    ExampleFacts.thermo_ok_example
    (ExampleFacts.reachable_all_db0 false)
    (conj eq_refl eq_refl)
    ExampleFacts.same_mixture_hot
    (conj eq_refl (fun H : EI = BAD_TYPE => eq_ind EI
       (fun t => match t with EI => True | _ => False end) I BAD_TYPE H)))
    as (l & db1 & db2 & g0 & H1 & H2 & H3 & H4 & H5 & H6 & H7 & _).
  exists l, db1, db2, g0. repeat split; assumption.
Defined.

(** The pair list of the example mixture: 3 species, 6 pairs. *)
Lemma pairs_triangular_witness :
  length (m_pairs Example.db0) = 6 /\
  Forall2 (is_pair Example.root_default Example.mixture) (m_pairs Example.db0)
    [(0, 0); (0, 1); (0, 2); (1, 1); (1, 2); (2, 2)].
Proof.
  destruct (pairs_triangular Example.PI Example.RU Example.TWOPI Example.SQRT2 0
    Example.root_default Example.thermo Example.db0 ExampleFacts.new_default)
    as (Hlen & HF & _).
  split; [exact Hlen | exact HF].
Defined.

(** Construction without tabulation, Tmin = -1. *)
Lemma untabulated_unchecked_witness :
  exists db : CollisionDBNew Example.RecGroup,
    Example.new Example.root_untabulated Example.thermo = Ok db /\
    m_tabulate db = false.
Proof.
  exact (untabulated_unchecked Example.PI Example.RU Example.TWOPI Example.SQRT2 0
    Example.thermo (Some (-1)%float) (Some 20000%float) (Some 100%float)
    ExampleFacts.thermo_ok_example).
Defined.

(** The bare suffix "ii" on the example mixture. *)
Lemma group_accepts_bare_suffix_witness :
  groupType "ii" = Ok II /\
  exists members l db',
    group false "ii" Example.thermo Example.db0 = Ok (l, db') /\
    m_group_nodes db' !! l
      = Some (update 1000%float Example.thermo
                (manage members EmptyString (CollisionGroup_new true 300 20000 100))).
Proof.
  destruct (group_accepts_bare_suffix Example.PI Example.RU Example.TWOPI
    Example.SQRT2 0 false Example.root_default Example.thermo Example.thermo
    Example.db0 "ii" II
    ExampleFacts.thermo_ok_example
    (ExampleFacts.reachable_all_db0 false)
    (conj eq_refl eq_refl)
    (or_intror (or_intror (or_introl eq_refl))))
    as (_ & Ht & _ & Hmiss).
  split; [exact Ht | exact (Hmiss eq_refl)].
Defined.

(** A bad suffix in a build without assertions, and in a build with them. *)
Lemma group_bad_suffix_stops_witness :
  group true "Q11xx" Example.thermo Example.db0
  = Exit 1 [ "Bad collision integral group type: 'xx' in group name: 'Q11xx'.";
             "Allowed group types are 'ee', 'ei', 'ii', and 'ij'." ] /\
  group false "Q11xx" Example.thermo Example.db0 = AssertFail "type != BAD_TYPE".
Proof.
  split.
  - exact (group_bad_suffix_stops Example.PI Example.RU Example.TWOPI
      Example.SQRT2 0 true Example.root_default Example.thermo Example.thermo
      Example.db0 "Q11" "x" "x" (ExampleFacts.reachable_all_db0 true) eq_refl).
  - exact (group_bad_suffix_stops Example.PI Example.RU Example.TWOPI
      Example.SQRT2 0 false Example.root_default Example.thermo Example.thermo
      Example.db0 "Q11" "x" "x" (ExampleFacts.reachable_all_db0 false) eq_refl).
Defined.

(** With assertions compiled in, the call on a bad suffix stops at the
    assertion: it writes no diagnostic and does not reach [exit]. *)
Lemma group_bad_suffix_counterexample :
  group false "Q11xx" Example.thermo Example.db0 = AssertFail "type != BAD_TYPE" /\
  forall code out,
    group false "Q11xx" Example.thermo Example.db0 <> Exit code out.
Proof.
  assert (H : group false "Q11xx" Example.thermo Example.db0
              = AssertFail "type != BAD_TYPE") by (vm_compute; reflexivity).
  split; [exact H|]. intros code out. rewrite H. discriminate.
Qed.

(** The default grid, the grid 300, 20050, 100 and a Tmin of zero on the
    example mixture. *)
Lemma construction_fails_when_witness :
  (exists db : CollisionDBNew Example.RecGroup,
     Example.new (mkXml (Some true) (Some 300%float) (Some 20000%float)
                    (Some 100%float)) Example.thermo = Ok db) /\
  Example.new Example.root_bad_grid Example.thermo
  = ParseError "(Tmax - Tmin)/dT must be a positive whole number." /\
  (exists db : CollisionDBNew Example.RecGroup,
     Example.new Example.root_default Example.thermo = Ok db) /\
  Example.new (mkXml None (Some 0%float) None None) Example.thermo
  = ParseError "Tmin must be positive.".
Proof.
  destruct (construction_fails_when (G:=Example.RecGroup) Example.PI Example.RU
    Example.TWOPI Example.SQRT2 0 Example.root_default Example.thermo
    ExampleFacts.thermo_ok_example) as (_ & _ & Hspan & Hok & Hbad).
  split; [exact Hok|]. split; [exact Hbad|]. split.
  - exact (proj2 (Hspan 197%Z eq_refl eq_refl eq_refl) eq_refl).
  - destruct (construction_fails_when (G:=Example.RecGroup) Example.PI Example.RU
      Example.TWOPI Example.SQRT2 0 (mkXml None (Some 0%float) None None)
      Example.thermo ExampleFacts.thermo_ok_example) as (_ & Hbounds & _).
    destruct (Hbounds eq_refl eq_refl) as (msg & Hnew & Hmsg & _).
    etransitivity; [exact Hnew|]. f_equal. exact (Hmsg eq_refl).
Defined.

(** Tabulation disabled and Tmin = -1: Tmin is not positive and the
    construction succeeds. *)
Lemma construction_fails_when_counterexample :
  (0 <? getAttribute (attr_Tmin Example.root_untabulated) 300)%float = false /\
  bounds_valid (-1) 20000 100 = false /\
  exists db : CollisionDBNew Example.RecGroup,
    Example.new Example.root_untabulated Example.thermo = Ok db.
Proof.
  split; [reflexivity|]. split; [reflexivity|]. eexists. vm_compute. reflexivity.
Qed.

(** [etai] on the example mixture, whose collision integrals evaluate to the
    temperature: one value per heavy species, etafac[i] * sqrt(T) / T. *)
Lemma etai_formula_witness :
  exists v db',
    etai false Example.thermo Example.db0 = Ok (v, db') /\
    length v = 2 /\
    v !! 0 = Some (PrimFloat.sqrt 1000
                   * (5 / 16 * PrimFloat.sqrt (Example.PI * Example.RU * 0.0140067))
                   / 1000)%float /\
    v !! 1 = Some (PrimFloat.sqrt 1000
                   * (5 / 16 * PrimFloat.sqrt (Example.PI * Example.RU * 0.0280134))
                   / 1000)%float.
Proof.
  destruct (etai_formula Example.PI Example.RU Example.TWOPI Example.SQRT2 0 false
    Example.root_default Example.thermo Example.thermo Example.db0
    ExampleFacts.thermo_ok_example
    (ExampleFacts.reachable_all_db0 false)
    (conj eq_refl eq_refl)) as (l & db1 & g & Hg & Hn & _ & _ & _ & Hv).
  assert (Hlen : length (array g) = nHeavy Example.thermo /\
                 array g !! 0 = Some 1000%float /\ array g !! 1 = Some 1000%float).
  { vm_compute in Hg. inversion Hg; subst l db1; clear Hg.
    vm_compute in Hn. inversion Hn; subst g; clear Hn.
    repeat split. }
  destruct Hlen as (Hlen & Hq0 & Hq1).
  destruct (Hv Hlen) as (v & He & Hl & Hi).
  exists v, (set_etai v db1). split; [exact He|]. split; [exact Hl|].
  split.
  - exact (Hi 0 (mkSpecies "N" 0.0140067) 1000%float eq_refl Hq0).
  - exact (Hi 1 (mkSpecies "N2" 0.0280134) 1000%float eq_refl Hq1).
Defined.


(** ** The positions of the heavy diagonal *)

Lemma half_pred_S (i : nat) : S i * (S i - 1) / 2 = i * (i - 1) / 2 + i.
Proof.
  destruct i as [|j]; [reflexivity|].
  replace (S (S j) * (S (S j) - 1)) with (S j * (S j + 1)) by lia.
  replace (S j * (S j - 1)) with (j * (j + 1)) by lia.
  apply tri_S.
Qed.

Lemma half_pred_le (i : nat) : i * (i - 1) / 2 <= i * i.
Proof.
  induction i as [|i IH]; [apply Nat.le_0_l|]. rewrite half_pred_S. lia.
Qed.

Lemma diag_offset_S (nh i : nat) :
  i < nh -> diag_offset nh (S i) = diag_offset nh i + (nh - i).
Proof.
  intros Hi. unfold diag_offset. rewrite half_pred_S.
  pose proof (half_pred_le i). nia.
Qed.

Lemma make_diag_positions (root : XmlElement) (th : Thermodynamics)
    (pairs : list CollisionPairNew) :
  thermo_ok th ->
  Forall2 (is_pair root (species th)) pairs (pair_indices (nSpecies th)) ->
  exists diag,
    make_diag pairs (nSpecies th) (electrons th) (electrons th * nSpecies th) = Ok diag /\
    length diag = nHeavy th /\
    forall i, i < nHeavy th ->
      diag !! i = pairs !! (electrons th * nSpecies th + diag_offset (nHeavy th) i).
Proof.
  intros Hok Hpairs. unfold make_diag, nHeavy.
  set (ns := nSpecies th) in *. set (e := electrons th) in *.
  assert (He : e <= ns) by exact Hok.
  set (body := fun (i : nat) (st : nat * list CollisionPairNew) =>
    let '(index, diag) := st in
    p ← at_index pairs index; Ok (index + (ns - e - i), diag ++ [p])).
  destruct (for_range_inv
    (fun i (st : nat * list CollisionPairNew) =>
       st.1 = length (flat_map (pair_row ns) (seq 0 (e + i))) /\
       st.1 = e * ns + diag_offset (ns - e) i /\
       length st.2 = i /\
       forall t, t < i -> st.2 !! t = pairs !! (e * ns + diag_offset (ns - e) t))
    0 (ns - e) body (e * ns, [])) as ([idx diag] & Hl & _ & _ & Hlen & Hpos).
  - lia.
  - cbn [fst snd]. rewrite Nat.add_0_r. split; [apply heavy_block_start|].
    split; [unfold diag_offset; simpl; lia|]. split; [reflexivity|]. intros t Ht. lia.
  - intros i [idx diag] Hi (Hidx & Hoff & Hlen & Hpos).
    cbn [fst snd] in Hidx, Hoff, Hlen, Hpos. unfold body.
    pose proof (pair_indices_lookup ns (e + i) 0 ltac:(lia)) as Hlk.
    rewrite !Nat.add_0_r in Hlk. rewrite <- Hidx in Hlk.
    destruct (Forall2_lookup_r _ _ _ _ _ Hpairs Hlk) as (p & Hp & _).
    rewrite (at_index_Some _ _ _ Hp), rbind_Ok.
    eexists. split; [reflexivity|]. cbn [fst snd]. split; [|split; [|split]].
    + replace (e + S i) with (S (e + i)) by lia.
      rewrite pair_indices_S_rows, length_app, pair_row_length, Hidx. lia.
    + rewrite diag_offset_S by lia. lia.
    + rewrite length_app. simpl. lia.
    + intros t Ht. destruct (decide (t = i)) as [->|Hne].
      * rewrite lookup_app_r by lia. rewrite Hlen, Nat.sub_diag. simpl.
        now rewrite <- Hoff, Hp.
      * rewrite lookup_app_l by lia. apply Hpos. lia.
  - exists diag. cbn [fst snd] in Hlen, Hpos. split; [|split; assumption].
    change ((for_range 0 (ns - e) body (e * ns, []) ≫= fun '(_, diag) => Ok diag)
            = Ok diag).
    now rewrite Hl.
Qed.

(** ** Further properties of the database *)

Lemma type_indices_length (t : GroupType) (th : Thermodynamics) :
  thermo_ok th ->
  length (type_indices t (nSpecies th) (electrons th))
  = match t with
    | EE => electrons th
    | EI => electrons th * nSpecies th
    | II => nHeavy th
    | IJ => nHeavy th * (nHeavy th + 1) / 2
    | BAD_TYPE => 0
    end.
Proof.
  intros Hok. unfold thermo_ok in Hok. destruct t; cbn [type_indices].
  - now rewrite length_fmap, length_seq.
  - symmetry. apply heavy_block_start.
  - now rewrite length_fmap, length_seq.
  - rewrite <- (heavy_rows_drop th Hok), length_drop, pair_indices_length.
    pose proof (rows_length (nSpecies th) (electrons th) Hok) as H.
    rewrite <- heavy_block_start in H. unfold nHeavy. lia.
  - reflexivity.
Qed.

Lemma take_electron_diag (th : Thermodynamics) :
  thermo_ok th ->
  take (electrons th) (pair_indices (nSpecies th))
  = (fun i => (i, i)) <$> seq 0 (electrons th).
Proof.
  intros Hok. unfold thermo_ok, electrons, nSpecies in *.
  destruct (hasElectrons th); [|reflexivity].
  unfold pair_indices. destruct (length (species th)) as [|n]; [lia|]. reflexivity.
Qed.

Lemma members_spec_indices (root : XmlElement) (th : Thermodynamics)
    (t : GroupType) (pairs members : list CollisionPairNew) :
  thermo_ok th ->
  Forall2 (is_pair root (species th)) pairs (pair_indices (nSpecies th)) ->
  members_spec root th t pairs members ->
  Forall2 (is_pair root (species th)) members
    (type_indices t (nSpecies th) (electrons th)).
Proof.
  intros Hok Hpairs Hspec. destruct t; simpl in Hspec |- *.
  - subst members. rewrite <- (take_electron_diag th Hok). now apply Forall2_take.
  - subst members. rewrite <- (electron_rows_take th Hok). now apply Forall2_take.
  - apply Hspec.
  - subst members. rewrite <- (heavy_rows_drop th Hok). now apply Forall2_drop.
  - destruct Hspec.
Qed.

Section Extras.

Context {G : Type} `{!CollisionGroup G}.
Variables (PI RU TWOPI SQRT2 indeterminate : float) (NDEBUG : bool).

Local Abbreviation new := (CollisionDBNew_new (G:=G) PI RU TWOPI SQRT2 indeterminate).
Local Abbreviation reach_all :=
  (reachable_all PI RU TWOPI SQRT2 indeterminate NDEBUG).
Local Abbreviation new_group db :=
  (CollisionGroup_new (m_tabulate db) (m_table_min db) (m_table_max db)
     (m_table_del db)).

Lemma reach_all_inv_at (root : XmlElement) (th0 th : Thermodynamics)
    (db : CollisionDBNew G) :
  thermo_ok th0 -> reach_all root th0 db -> same_mixture th0 th ->
  thermo_ok th /\ db_inv_all PI RU TWOPI SQRT2 root th db.
Proof.
  intros Hok Hr Hmix.
  apply (inv_all_mixture PI RU TWOPI SQRT2 root th0 th db Hok Hmix).
  exact (reachable_all_inv PI RU TWOPI SQRT2 indeterminate NDEBUG root th0 db Hok Hr).
Qed.

(** X1: on a cache miss the kind given to [manage] is the name without its
    last two characters, and the new node takes the next free location. *)
Theorem group_miss_kind (root : XmlElement) (th0 th : Thermodynamics)
    (db : CollisionDBNew G) (name : string) (t : GroupType) :
  thermo_ok th0 ->
  reach_all root th0 db ->
  same_mixture th0 th ->
  valid_name name t ->
  m_groups db !! name = None ->
  let kind := String.substring 0 (String.length name - 2) name in
  let suffix := String.substring (String.length name - 2) 2 name in
  name = kind +:+ suffix /\
  exists members db',
    group NDEBUG name th db = Ok (length (m_group_nodes db), db') /\
    length (m_group_nodes db') = S (length (m_group_nodes db)) /\
    m_group_nodes db' !! length (m_group_nodes db)
      = Some (update (group_temperature t th) th
                (manage members kind (new_group db))).
Proof.
  intros Hok Hr Hmix Hv Hnone kind suffix.
  destruct (reach_all_inv_at root th0 th db Hok Hr Hmix) as (Hok' & (Hpairs & _) & _).
  destruct (valid_name_split name t Hv) as (p & a & b & Hname & <-).
  destruct Hv as [_ Hne].
  assert (Hkind : kind = p).
  { unfold kind. rewrite Hname, string_length_app. simpl String.length.
    replace (String.length p + 2 - 2) with (String.length p) by lia.
    apply substring_prefix. }
  assert (Hsuf : suffix = String a (String b EmptyString)).
  { unfold suffix. rewrite Hname, string_length_app. simpl String.length.
    replace (String.length p + 2 - 2) with (String.length p) by lia.
    apply (substring_suffix p (String a (String b EmptyString))). }
  split; [now rewrite Hkind, Hsuf|].
  rewrite Hkind. subst name.
  destruct (group_miss NDEBUG root th db p a b Hok' Hpairs Hne Hnone)
    as (members & _ & Hg).
  eexists members, _. split; [exact Hg|]. cbn [m_group_nodes set_groups].
  split; [rewrite length_app; simpl; lia|]. now apply list_lookup_middle.
Qed.

(** X2: the members of a new group, by species: EE has the pair of the
    electron with itself, EI the pairs of the electron with every species in
    the order of the species, II the pairs of each heavy species with itself,
    IJ the pairs (i,j) of heavy species with i <= j, row by row; without
    electrons EE and EI are empty.  The counts are e, e*ns, nHeavy and
    nHeavy*(nHeavy+1)/2. *)
Theorem group_members_by_species (root : XmlElement) (th0 th : Thermodynamics)
    (db : CollisionDBNew G) (name : string) (t : GroupType) :
  thermo_ok th0 ->
  reach_all root th0 db ->
  same_mixture th0 th ->
  valid_name name t ->
  m_groups db !! name = None ->
  let ns := nSpecies th in
  let e := if hasElectrons th then 1 else 0 in
  exists kind members l db',
    group NDEBUG name th db = Ok (l, db') /\
    m_group_nodes db' !! l
      = Some (update (group_temperature t th) th
                (manage members kind (new_group db))) /\
    Forall2 (is_pair root (species th)) members
      match t with
      | EE => (fun i => (i, i)) <$> seq 0 e
      | EI => pair 0 <$> seq 0 (e * ns)
      | II => (fun i => (i, i)) <$> seq e (ns - e)
      | IJ => flat_map (fun i => pair i <$> seq i (ns - i)) (seq e (ns - e))
      | BAD_TYPE => []
      end /\
    length members
    = match t with
      | EE => e
      | EI => e * ns
      | II => ns - e
      | IJ => (ns - e) * (ns - e + 1) / 2
      | BAD_TYPE => 0
      end.
Proof.
  intros Hok Hr Hmix Hv Hnone ns e.
  destruct (reach_all_inv_at root th0 th db Hok Hr Hmix) as (Hok' & (Hpairs & _) & _).
  destruct (valid_name_split name t Hv) as (p & a & b & -> & <-).
  destruct Hv as [_ Hne].
  destruct (group_miss NDEBUG root th db p a b Hok' Hpairs Hne Hnone)
    as (members & Hspec & Hg).
  pose proof (members_spec_indices root th _ _ _ Hok' Hpairs Hspec) as HF.
  eexists p, members, _, _. split; [exact Hg|].
  split; [cbn [m_group_nodes set_groups]; now apply list_lookup_middle|].
  assert (HEI : flat_map (pair_row ns) (seq 0 e) = pair 0 <$> seq 0 (e * ns)).
  { unfold e. destruct (hasElectrons th); [|reflexivity].
    simpl. rewrite app_nil_r. unfold pair_row. f_equal. f_equal. lia. }
  split.
  - destruct (suffix_type a b); try exact HF.
    change (Forall2 (is_pair root (species th)) members
              (flat_map (pair_row ns) (seq 0 e))) in HF.
    now rewrite HEI in HF.
  - rewrite (Forall2_length _ _ _ HF), (type_indices_length _ th Hok').
    destruct (suffix_type a b); reflexivity.
Qed.

(** X3: the ranges of the four group types in the pair list: the EI range
    followed by the IJ range is the whole list, the EE range is the start of
    the EI range, and the i-th element of the II list is the element of the
    IJ range at offset i*nHeavy - i*(i-1)/2. *)
Theorem group_ranges_partition (root : XmlElement) (th0 th : Thermodynamics)
    (db : CollisionDBNew G) (name : string) :
  thermo_ok th0 ->
  reach_all root th0 db ->
  same_mixture th0 th ->
  exists ee ei ii ij,
    select_members EE name th (m_pairs db) = Ok ee /\
    select_members EI name th (m_pairs db) = Ok ei /\
    select_members II name th (m_pairs db) = Ok ii /\
    select_members IJ name th (m_pairs db) = Ok ij /\
    ei ++ ij = m_pairs db /\
    ee = take (if hasElectrons th then 1 else 0) ei /\
    length ii = nHeavy th /\
    forall i, i < nHeavy th -> ii !! i = ij !! diag_offset (nHeavy th) i.
Proof.
  intros Hok Hr Hmix.
  destruct (reach_all_inv_at root th0 th db Hok Hr Hmix) as (Hok' & (Hpairs & _) & _).
  pose proof (pairs_length _ _ _ Hpairs) as Hlen. fold (nSpecies th) in Hlen.
  pose proof (tri_ge (nSpecies th)) as Htri.
  assert (He : electrons th <= nSpecies th) by exact Hok'.
  assert (Hk : electrons th * nSpecies th <= length (m_pairs db)).
  { unfold electrons in *. destruct (hasElectrons th); lia. }
  assert (Hek : electrons th <= electrons th * nSpecies th).
  { unfold electrons in *. destruct (hasElectrons th); lia. }
  destruct (make_diag_positions root th (m_pairs db) Hok' Hpairs)
    as (ii & Hii & Hlii & Hpos).
  exists (take (electrons th) (m_pairs db)),
         (take (electrons th * nSpecies th) (m_pairs db)), ii,
         (drop (electrons th * nSpecies th) (m_pairs db)).
  cbn [select_members]. rewrite !iter_advance_le by lia.
  repeat split; try assumption.
  - apply take_drop.
  - change (if hasElectrons th then 1 else 0) with (electrons th).
    rewrite take_take. f_equal. lia.
  - intros i Hi. rewrite lookup_drop. now apply Hpos.
Qed.

(** X4: in every state of the database two names of the cache never share a
    node, there are as many nodes as names, and every name of the cache is a
    valid group name with its node in the store. *)
Theorem cache_names_own_nodes (root : XmlElement) (th0 : Thermodynamics)
    (db : CollisionDBNew G) :
  thermo_ok th0 ->
  reach_all root th0 db ->
  (forall n1 n2 l,
     m_groups db !! n1 = Some l -> m_groups db !! n2 = Some l -> n1 = n2) /\
  size (m_groups db) = length (m_group_nodes db) /\
  forall name l, m_groups db !! name = Some l ->
    is_Some (m_group_nodes db !! l) /\ exists t, valid_name name t.
Proof.
  intros Hok Hr.
  destruct (reachable_all_inv PI RU TWOPI SQRT2 indeterminate NDEBUG root th0 db Hok Hr)
    as ((_ & _ & Hc) & _ & Hinj & Hsize).
  split; [exact Hinj|]. split; [exact Hsize|].
  intros name l Hl. destruct (Hc name l Hl) as [Hlt Hv].
  split; [now apply lookup_lt_is_Some_2 | exact Hv].
Qed.

(** X5: a call of [group] that returns leaves every other name of the cache
    with its location and its node unchanged, adds at most the one name it
    was called with (at the location equal to the number of names before),
    and changes neither the pair list, nor the factors, nor the tabulation
    parameters. *)
Theorem group_changes_one_entry (root : XmlElement) (th0 th : Thermodynamics)
    (db db' : CollisionDBNew G) (name : string) (l : nat) :
  thermo_ok th0 ->
  reach_all root th0 db ->
  group NDEBUG name th db = Ok (l, db') ->
  m_groups db' !! name = Some l /\
  (forall name', name' <> name ->
     m_groups db' !! name' = m_groups db !! name' /\
     forall l', m_groups db !! name' = Some l' ->
       m_group_nodes db' !! l' = m_group_nodes db !! l') /\
  match m_groups db !! name with
  | Some l0 => l0 = l /\ size (m_groups db') = size (m_groups db)
  | None => l = size (m_groups db) /\ size (m_groups db') = S (size (m_groups db))
  end /\
  m_pairs db' = m_pairs db /\ m_etafac db' = m_etafac db /\
  m_Deifac db' = m_Deifac db /\ m_Dijfac db' = m_Dijfac db /\
  m_tabulate db' = m_tabulate db /\ m_table_min db' = m_table_min db /\
  m_table_max db' = m_table_max db /\ m_table_del db' = m_table_del db.
Proof.
  intros Hok Hr Hg.
  destruct (reachable_all_inv PI RU TWOPI SQRT2 indeterminate NDEBUG root th0 db Hok Hr)
    as ((_ & _ & Hc) & _ & Hinj & Hsize).
  destruct (group_Ok_inv NDEBUG th db db' name l Hc Hg)
    as (t & g & Hv & [[Hl ->]|(Hl & -> & ->)]).
  - rewrite Hl. cbn [m_groups m_group_nodes update_node set_groups m_pairs m_etafac
      m_Deifac m_Dijfac m_tabulate m_table_min m_table_max m_table_del].
    split; [exact Hl|]. split; [|now repeat split].
    intros name' Hne. split; [reflexivity|]. intros l' Hl'.
    apply list_lookup_insert_ne. intros ->. apply Hne. exact (Hinj _ _ _ Hl' Hl).
  - rewrite Hl. cbn [m_groups m_group_nodes update_node set_groups m_pairs m_etafac
      m_Deifac m_Dijfac m_tabulate m_table_min m_table_max m_table_del].
    split; [apply lookup_insert_eq|]. split.
    + intros name' Hne. split; [now apply lookup_insert_ne|]. intros l' Hl'.
      apply lookup_app_l. now destruct (Hc name' l' Hl').
    + split; [|now repeat split]. split; [now symmetry|].
      now apply map_size_insert_None.
Qed.

(** X6: in every state of the database the tabulation parameters are the
    attributes of the root element read at construction, each absent
    attribute replaced by its default (true, 300, 20000, 100). *)
Theorem tabulation_parameters_fixed (root : XmlElement) (th0 : Thermodynamics)
    (db : CollisionDBNew G) :
  thermo_ok th0 ->
  reach_all root th0 db ->
  m_tabulate db = match attr_tabulate root with Some b => b | None => true end /\
  m_table_min db = match attr_Tmin root with Some x => x | None => 300%float end /\
  m_table_max db = match attr_Tmax root with Some x => x | None => 20000%float end /\
  m_table_del db = match attr_dT root with Some x => x | None => 100%float end.
Proof.
  intros Hok Hr.
  destruct (reachable_all_inv PI RU TWOPI SQRT2 indeterminate NDEBUG root th0 db Hok Hr)
    as (_ & (H1 & H2 & H3 & H4 & _) & _).
  now repeat split.
Qed.

(** A call of [group] on a valid name in a state that keeps the invariants:
    it returns, the node it returns was updated at the temperature of the
    type, and what is fixed at construction is untouched. *)
Lemma group_call (root : XmlElement) (th : Thermodynamics)
    (db : CollisionDBNew G) (name : string) (t : GroupType) :
  thermo_ok th ->
  db_inv_all PI RU TWOPI SQRT2 root th db ->
  valid_name name t ->
  exists l db1 g0,
    group NDEBUG name th db = Ok (l, db1) /\
    m_group_nodes db1 !! l = Some (update (group_temperature t th) th g0) /\
    m_pairs db1 = m_pairs db /\ m_etafac db1 = m_etafac db /\
    m_Deifac db1 = m_Deifac db /\ m_Dijfac db1 = m_Dijfac db /\
    m_nDei db1 = m_nDei db.
Proof.
  intros Hok ((Hpairs & _ & Hc) & _ & _) Hv.
  destruct (m_groups db !! name) as [l|] eqn:Hl.
  - destruct (group_hit NDEBUG th db name t l Hc Hv Hl) as (g & Hg & Hcall).
    eexists l, _, g. split; [exact Hcall|]. split; [|now repeat split].
    cbn [m_group_nodes update_node set_groups].
    apply list_lookup_insert_eq. eapply lookup_lt_Some, Hg.
  - destruct (valid_name_split name t Hv) as (p & a & b & -> & <-).
    destruct (group_miss NDEBUG root th db p a b Hok Hpairs (proj2 Hv) Hl)
      as (members & _ & Hcall).
    eexists _, _, _. split; [exact Hcall|]. split; [|now repeat split].
    cbn [m_group_nodes set_groups]. now apply list_lookup_middle.
Qed.

(** X7: the nDei factors in every state of the database: none without
    electrons; with electrons one per species, all equal to
    3/16 * sqrt(TWOPI * RU / Mw(0)) for the molar mass of species 0, except
    the one of index 0, which is this value times 2/SQRT2. *)
Theorem Deifac_content (root : XmlElement) (th0 : Thermodynamics)
    (db : CollisionDBNew G) :
  thermo_ok th0 ->
  reach_all root th0 db ->
  if hasElectrons th0 then
    exists s0,
      species th0 !! 0 = Some s0 /\
      length (m_Deifac db) = nSpecies th0 /\
      m_Deifac db !! 0
        = Some (3 / 16 * PrimFloat.sqrt (TWOPI * RU / sp_molecularWeight s0)
                * (2 / SQRT2))%float /\
      forall i, 0 < i < nSpecies th0 ->
        m_Deifac db !! i
        = Some (3 / 16 * PrimFloat.sqrt (TWOPI * RU / sp_molecularWeight s0))%float
  else m_Deifac db = [].
Proof.
  intros Hok Hr.
  destruct (reachable_all_inv PI RU TWOPI SQRT2 indeterminate NDEBUG root th0 db Hok Hr)
    as (_ & (_ & _ & _ & _ & HD & _) & _).
  rewrite HD. unfold Deifac_spec. unfold thermo_ok, electrons in Hok.
  destruct (hasElectrons th0); [|reflexivity].
  destruct (species th0) as [|s0 sp] eqn:Hsp.
  { unfold nSpecies in Hok. rewrite Hsp in Hok. simpl in Hok. lia. }
  exists s0. split; [reflexivity|].
  split; [now rewrite length_insert, length_replicate|]. split.
  - apply list_lookup_insert_eq. rewrite length_replicate. lia.
  - intros i Hi. rewrite list_lookup_insert_ne by lia.
    apply lookup_replicate_2. lia.
Qed.

(** X8: the nDij factors in every state of the database are aligned with the
    members of an IJ group: there are nHeavy*(nHeavy+1)/2 of them and the
    factor at each position is 3/16 * sqrt(TWOPI*RU*(Mi+Mj)/(Mi*Mj)) for the
    molar masses of the two species of the pair at this position of the
    range that [group] selects for IJ. *)
Theorem Dijfac_aligned (root : XmlElement) (th0 : Thermodynamics)
    (db : CollisionDBNew G) (name : string) :
  thermo_ok th0 ->
  reach_all root th0 db ->
  exists ij,
    select_members IJ name th0 (m_pairs db) = Ok ij /\
    length (m_Dijfac db) = nHeavy th0 * (nHeavy th0 + 1) / 2 /\
    Forall2 (fun v p =>
       let mi := sp_molecularWeight (pair_sp1 p) in
       let mj := sp_molecularWeight (pair_sp2 p) in
       v = (3 / 16 * PrimFloat.sqrt (TWOPI * RU * (mi + mj) / (mi * mj)))%float)
      (m_Dijfac db) ij.
Proof.
  intros Hok Hr.
  destruct (reachable_all_inv PI RU TWOPI SQRT2 indeterminate NDEBUG root th0 db Hok Hr)
    as ((Hpairs & _) & (_ & _ & _ & _ & _ & HF & _) & _).
  pose proof (pairs_length _ _ _ Hpairs) as Hlen. fold (nSpecies th0) in Hlen.
  pose proof (tri_ge (nSpecies th0)) as Htri.
  assert (Hk : electrons th0 * nSpecies th0 <= length (m_pairs db)).
  { unfold thermo_ok, electrons in *. destruct (hasElectrons th0); lia. }
  exists (drop (electrons th0 * nSpecies th0) (m_pairs db)).
  cbn [select_members]. rewrite iter_advance_le by lia.
  split; [reflexivity|]. split; [|exact HF].
  rewrite (Forall2_length _ _ _ HF), (Forall2_length _ _ _ (Forall2_drop _ _ _ _ Hpairs)).
  rewrite (heavy_rows_drop th0 Hok). exact (type_indices_length IJ th0 Hok).
Qed.

(** X9: the eta factors in every state of the database are aligned with the
    members of an II group: the factor at each position is computed from the
    molar mass of the species that the member at this position pairs with
    itself. *)
Theorem etafac_aligned (root : XmlElement) (th0 : Thermodynamics)
    (db : CollisionDBNew G) (name : string) :
  thermo_ok th0 ->
  reach_all root th0 db ->
  exists ii,
    select_members II name th0 (m_pairs db) = Ok ii /\
    Forall2 (fun v p =>
       pair_sp2 p = pair_sp1 p /\
       v = (5 / 16 * PrimFloat.sqrt (PI * RU * sp_molecularWeight (pair_sp1 p)))%float)
      (m_etafac db) ii.
Proof.
  intros Hok Hr.
  destruct (reachable_all_inv PI RU TWOPI SQRT2 indeterminate NDEBUG root th0 db Hok Hr)
    as ((Hpairs & Hfac & _) & _ & _).
  destruct (make_diag_spec root th0 (m_pairs db) Hok Hpairs) as (ii & Hii & HF & _).
  exists ii. split; [exact Hii|]. rewrite Hfac. unfold etafac_spec.
  apply (Forall2_via
    (fun v (ij : nat * nat) => ij.2 = ij.1 /\ exists s, species th0 !! ij.1 = Some s /\
       v = (5 / 16 * PrimFloat.sqrt (PI * RU * sp_molecularWeight s))%float)
    (is_pair root (species th0)) _ _ _
    ((fun i => (i, i)) <$> seq (electrons th0) (nSpecies th0 - electrons th0))).
  - intros v p [i j] (Hij & s & Hs & ->) (H1 & H2 & _). cbn [fst snd] in *.
    subst j. rewrite Hs in H1. rewrite Hs in H2.
    inversion H1 as [E1]. inversion H2 as [E2]. rewrite <- E1, <- E2.
    split; reflexivity.
  - apply Forall2_fmap. apply Forall2_same_length_lookup_2.
    + rewrite length_drop, length_seq. reflexivity.
    + intros j s i Hs Hi. rewrite lookup_drop in Hs.
      apply lookup_seq in Hi as [-> _]. cbn [fst snd]. eauto.
  - exact HF.
Qed.

(** X10: without electrons [nDei] returns the empty array and does nothing
    else: no group is created or updated and the database is unchanged. *)
Theorem nDei_without_electrons (root : XmlElement) (th0 th : Thermodynamics)
    (db : CollisionDBNew G) :
  thermo_ok th0 ->
  reach_all root th0 db ->
  same_mixture th0 th ->
  hasElectrons th0 = false ->
  nDei NDEBUG th db = Ok ([], db).
Proof.
  intros Hok Hr Hmix He.
  destruct (reachable_all_inv PI RU TWOPI SQRT2 indeterminate NDEBUG root th0 db Hok Hr)
    as (_ & (_ & _ & _ & _ & _ & _ & Hlen) & _).
  unfold electrons in Hlen. rewrite He, Nat.mul_0_r in Hlen.
  apply nil_length_inv in Hlen. unfold nDei. rewrite Hlen. reflexivity.
Qed.

(** X11: with electrons [nDei] updates the group Q11ei at the electron
    temperature and returns, species by species,
    sqrt(Te) * Deifac[i] / Q11ei[i], where Deifac[i] is
    3/16 * sqrt(TWOPI*RU/Mw(0)), times 2/SQRT2 for i = 0; it has no meaning
    when the value array has not one entry per species. *)
Theorem nDei_with_electrons (root : XmlElement) (th0 th : Thermodynamics)
    (db : CollisionDBNew G) :
  thermo_ok th0 ->
  reach_all root th0 db ->
  same_mixture th0 th ->
  hasElectrons th0 = true ->
  exists s0 l db1 g0,
    species th !! 0 = Some s0 /\
    group NDEBUG "Q11ei" th db = Ok (l, db1) /\
    m_group_nodes db1 !! l = Some (update (Te th) th g0) /\
    let q := array (update (Te th) th g0) in
    let c := (3 / 16 * PrimFloat.sqrt (TWOPI * RU / sp_molecularWeight s0))%float in
    (length q <> nSpecies th -> nDei NDEBUG th db = Undefined) /\
    (length q = nSpecies th ->
     exists v,
       nDei NDEBUG th db = Ok (v, set_nDei v db1) /\
       length v = nSpecies th /\
       forall i qi, q !! i = Some qi ->
         v !! i = Some (PrimFloat.sqrt (Te th)
                        * (if (i =? 0)%nat then c * (2 / SQRT2) else c) / qi)%float).
Proof.
  intros Hok Hr Hmix He.
  destruct (reach_all_inv_at root th0 th db Hok Hr Hmix) as (Hok' & Hinv).
  assert (He' : hasElectrons th = true) by (destruct Hmix as [_ <-]; exact He).
  pose proof Hinv as (_ & (_ & _ & _ & _ & HD & _ & Hlen) & _).
  unfold electrons in Hlen. rewrite He', Nat.mul_1_r in Hlen.
  unfold Deifac_spec in HD. rewrite He' in HD.
  assert (Hns : 0 < nSpecies th).
  { unfold thermo_ok, electrons in Hok'. rewrite He' in Hok'. lia. }
  destruct (species th) as [|s0 sp] eqn:Hsp.
  { unfold nSpecies in Hns. rewrite Hsp in Hns. simpl in Hns. lia. }
  destruct (group_call root th db "Q11ei" EI Hok' Hinv
              ltac:(split; [reflexivity | discriminate]))
    as (l & db1 & g0 & Hcall & Hnode & _ & _ & HD1 & _ & _).
  change (group_temperature EI th) with (Te th) in Hnode.
  exists s0, l, db1, g0. split; [reflexivity|]. split; [exact Hcall|].
  split; [exact Hnode|]. intros q c.
  assert (Hlt : (0 <? length (m_nDei db))%nat = true) by (apply Nat.ltb_lt; lia).
  unfold nDei, Q11ei. rewrite Hlt, Hcall, rbind_Ok. cbn beta iota.
  rewrite (at_index_Some _ _ _ Hnode), !rbind_Ok. cbn beta iota.
  rewrite HD1, HD. fold q. fold (Dei_value RU TWOPI (sp_molecularWeight s0)).
  unfold array_div, array_scale.
  rewrite length_fmap, length_insert, length_replicate. split.
  - intros Hne. rewrite decide_False by congruence. reflexivity.
  - intros Heq. rewrite decide_True by congruence. rewrite rbind_Ok.
    eexists. split; [reflexivity|]. split.
    + rewrite length_zip_with, length_fmap, length_insert, length_replicate. lia.
    + intros i qi Hq. rewrite lookup_zip_with, list_lookup_fmap, Hq.
      assert (Hi : i < nSpecies th) by (rewrite <- Heq; eapply lookup_lt_Some, Hq).
      destruct i as [|i].
      * rewrite list_lookup_insert_eq by (rewrite length_replicate; lia). reflexivity.
      * rewrite list_lookup_insert_ne by lia.
        rewrite lookup_replicate_2 by lia. reflexivity.
Qed.

(** X12: [nDij] updates the group Q11ij at the heavy temperature and
    returns, heavy pair by heavy pair, sqrt(T) * Dijfac[i] / Q11ij[i], where
    Dijfac[i] is 3/16 * sqrt(TWOPI*RU*(Mi+Mj)/(Mi*Mj)) for the molar masses
    of the species of the i-th pair of the heavy block of the pair list; it
    has no meaning when the value array has not one entry per heavy pair. *)
Theorem nDij_formula (root : XmlElement) (th0 th : Thermodynamics)
    (db : CollisionDBNew G) :
  thermo_ok th0 ->
  reach_all root th0 db ->
  same_mixture th0 th ->
  let e := if hasElectrons th then 1 else 0 in
  let n := nHeavy th * (nHeavy th + 1) / 2 in
  exists l db1 g0,
    group NDEBUG "Q11ij" th db = Ok (l, db1) /\
    m_group_nodes db1 !! l = Some (update (T th) th g0) /\
    let q := array (update (T th) th g0) in
    (length q <> n -> nDij NDEBUG th db = Undefined) /\
    (length q = n ->
     exists v,
       nDij NDEBUG th db = Ok (v, set_nDij v db1) /\
       length v = n /\
       forall i p qi,
         drop (e * nSpecies th) (m_pairs db) !! i = Some p ->
         q !! i = Some qi ->
         let mi := sp_molecularWeight (pair_sp1 p) in
         let mj := sp_molecularWeight (pair_sp2 p) in
         v !! i = Some (PrimFloat.sqrt (T th)
                        * (3 / 16 * PrimFloat.sqrt (TWOPI * RU * (mi + mj) / (mi * mj)))
                        / qi)%float).
Proof.
  intros Hok Hr Hmix e n.
  destruct (reach_all_inv_at root th0 th db Hok Hr Hmix) as (Hok' & Hinv).
  pose proof Hinv as ((Hpairs & _) & (_ & _ & _ & _ & _ & HF & _) & _).
  assert (Hlen : length (m_Dijfac db) = n).
  { rewrite (Forall2_length _ _ _ HF),
      (Forall2_length _ _ _ (Forall2_drop _ _ _ _ Hpairs)).
    rewrite (heavy_rows_drop th Hok'). exact (type_indices_length IJ th Hok'). }
  destruct (group_call root th db "Q11ij" IJ Hok' Hinv
              ltac:(split; [reflexivity | discriminate]))
    as (l & db1 & g0 & Hcall & Hnode & _ & _ & _ & HD1 & _).
  change (group_temperature IJ th) with (T th) in Hnode.
  exists l, db1, g0. split; [exact Hcall|]. split; [exact Hnode|]. intros q.
  unfold nDij, Q11ij. rewrite Hcall, rbind_Ok. cbn beta iota.
  rewrite (at_index_Some _ _ _ Hnode), !rbind_Ok. cbn beta iota.
  rewrite HD1. fold q. unfold array_div, array_scale. rewrite length_fmap, Hlen.
  split.
  - intros Hne. rewrite decide_False by congruence. reflexivity.
  - intros Heq. rewrite decide_True by congruence. rewrite rbind_Ok.
    eexists. split; [reflexivity|]. split.
    + rewrite length_zip_with, length_fmap. lia.
    + intros i p qi Hp Hq.
      rewrite lookup_zip_with, list_lookup_fmap, Hq.
      destruct (Forall2_lookup_r _ _ _ _ _ HF Hp) as (v & Hv & Hvp).
      rewrite Hv. rewrite Hvp. reflexivity.
Qed.

(** X13: an accessor changes no group but its own: after [etai], [nDei] or
    [nDij] has returned, every name of the cache other than Q22ii, Q11ei or
    Q11ij respectively has its location and its node unchanged. *)
Theorem accessors_touch_own_group (root : XmlElement) (th0 th : Thermodynamics)
    (db db' : CollisionDBNew G) (v : list float) (gname : string) :
  thermo_ok th0 ->
  reach_all root th0 db ->
  (gname = "Q22ii" /\ etai NDEBUG th db = Ok (v, db')) \/
  (gname = "Q11ei" /\ nDei NDEBUG th db = Ok (v, db')) \/
  (gname = "Q11ij" /\ nDij NDEBUG th db = Ok (v, db')) ->
  forall name l,
    name <> gname ->
    m_groups db !! name = Some l ->
    m_groups db' !! name = Some l /\
    m_group_nodes db' !! l = m_group_nodes db !! l.
Proof.
  intros Hok Hr Hcall name l Hne Hl.
  destruct (reachable_all_inv PI RU TWOPI SQRT2 indeterminate NDEBUG root th0 db Hok Hr)
    as ((_ & _ & Hc) & _ & Hinj & _).
  assert (Hgroup : db' = db \/ exists l1 db1,
            group NDEBUG gname th db = Ok (l1, db1) /\
            m_groups db' = m_groups db1 /\ m_group_nodes db' = m_group_nodes db1).
  { destruct Hcall as [[-> H]|[[-> H]|[-> H]]].
    - right. unfold etai in H.
      apply rbind_Ok_inv in H as ([q db1] & Hq & H).
      apply rbind_Ok_inv in H as (v' & _ & H). inversion H; subst; clear H.
      destruct (accessor_Ok_inv NDEBUG (Q22ii NDEBUG) "Q22ii" th db db1 q eq_refl Hq)
        as (l1 & g & Hg & _). eauto.
    - unfold nDei in H. destruct (0 <? length (m_nDei db))%nat.
      2: { left. now inversion H. }
      right. apply rbind_Ok_inv in H as ([q db1] & Hq & H).
      apply rbind_Ok_inv in H as (v' & _ & H). inversion H; subst; clear H.
      destruct (accessor_Ok_inv NDEBUG (Q11ei NDEBUG) "Q11ei" th db db1 q eq_refl Hq)
        as (l1 & g & Hg & _). eauto.
    - right. unfold nDij in H.
      apply rbind_Ok_inv in H as ([q db1] & Hq & H).
      apply rbind_Ok_inv in H as (v' & _ & H). inversion H; subst; clear H.
      destruct (accessor_Ok_inv NDEBUG (Q11ij NDEBUG) "Q11ij" th db db1 q eq_refl Hq)
        as (l1 & g & Hg & _). eauto. }
  destruct Hgroup as [->|(l1 & db1 & Hg & -> & ->)]; [now split|].
  destruct (group_Ok_inv NDEBUG th db db1 gname l1 Hc Hg)
    as (t & g & Hv & [[Hl1 ->]|(Hl1 & -> & ->)]).
  - cbn [m_groups m_group_nodes update_node set_groups]. split; [exact Hl|].
    apply list_lookup_insert_ne. intros ->. apply Hne. exact (Hinj _ _ _ Hl Hl1).
  - cbn [m_groups m_group_nodes set_groups].
    split; [rewrite lookup_insert_ne by congruence; exact Hl|].
    apply lookup_app_l. now destruct (Hc name l Hl).
Qed.

(** X14: for a well-formed mixture the construction returns exactly when the
    checks of the table data pass; the database then has an empty cache and
    arrays of nHeavy (eta), nSpecies*e (nDei), nHeavy*(nHeavy+1)/2 (nDij)
    and nSpecies (Dim) elements. *)
Theorem construction_result (root : XmlElement) (th : Thermodynamics) :
  thermo_ok th ->
  let checks :=
    check_table (getAttribute (attr_tabulate root) true)
      (getAttribute (attr_Tmin root) 300%float)
      (getAttribute (attr_Tmax root) 20000%float)
      (getAttribute (attr_dT root) 100%float) in
  let e := if hasElectrons th then 1 else 0 in
  let nh := nSpecies th - e in
  ((exists db, new root th = Ok db) <-> checks = Ok tt) /\
  forall db, new root th = Ok db ->
    m_groups db = ∅ /\ m_group_nodes db = [] /\
    length (m_etai db) = nh /\ length (m_etafac db) = nh /\
    length (m_nDei db) = nSpecies th * e /\ length (m_Deifac db) = nSpecies th * e /\
    length (m_nDij db) = nh * (nh + 1) / 2 /\ length (m_Dijfac db) = nh * (nh + 1) / 2 /\
    length (m_Dim db) = nSpecies th.
Proof.
  intros Hok checks e nh. split.
  - split.
    + intros [db Hnew]. now apply new_Ok_inv in Hnew as (Hc & _).
    + intros Hc.
      destruct (new_checked (G:=G) PI RU TWOPI SQRT2 indeterminate root th Hok Hc)
        as (db & Hnew & _). eauto.
  - intros db Hnew.
    pose proof (new_inv_all PI RU TWOPI SQRT2 indeterminate root th db Hok Hnew)
      as ((Hpairs & Hfac & _) & (_ & _ & _ & _ & HD & HF & Hlen) & _).
    destruct (new_Ok_fields PI RU TWOPI SQRT2 indeterminate root th db Hnew)
      as (pairs & etafac & Dei & Dij & _ & _ & _ & _ & Hdb).
    assert (HlenD : length (m_Dijfac db) = nh * (nh + 1) / 2).
    { rewrite (Forall2_length _ _ _ HF),
        (Forall2_length _ _ _ (Forall2_drop _ _ _ _ Hpairs)).
      rewrite (heavy_rows_drop th Hok). exact (type_indices_length IJ th Hok). }
    assert (HlenDei : length (m_Deifac db) = nSpecies th * e).
    { rewrite HD. unfold Deifac_spec. unfold thermo_ok, electrons in Hok. unfold e.
      destruct (hasElectrons th); [|simpl; lia].
      destruct (species th) as [|s0 sp] eqn:Hsp.
      - unfold nSpecies in *. rewrite Hsp in *. simpl in Hok. lia.
      - rewrite length_insert, length_replicate. lia. }
    assert (Hlenf : length (m_etafac db) = nh).
    { rewrite Hfac. unfold etafac_spec. now rewrite length_fmap, length_drop. }
    rewrite Hdb in *. cbn [m_groups m_group_nodes m_etai m_etafac m_nDei m_Deifac
      m_nDij m_Dijfac m_Dim] in *.
    rewrite !length_replicate. repeat split; assumption.
Qed.

End Extras.

(** X15: the checks of the table data refuse a Tmin, Tmax or dT that is not
    a number, and a Tmin that is zero. *)
Theorem check_table_rejects_nan (a b d : float) :
  check_table true nan b d = ParseError "Tmin must be positive." /\
  check_table true 0 b d = ParseError "Tmin must be positive." /\
  (exists msg, check_table true a nan d = ParseError msg) /\
  (exists msg, check_table true a b nan = ParseError msg).
Proof.
  split; [reflexivity|]. split; [reflexivity|].
  unfold check_table, parseCheck. change (0.0 <? nan)%float with false.
  split.
  - destruct (0.0 <? a)%float; simpl; eauto.
  - destruct (0.0 <? a)%float; simpl; eauto. destruct (0.0 <? b)%float; simpl; eauto.
Qed.

(** ** The further properties on the example mixtures *)

Module ExtraFacts.
Import Example.

Lemma reach_all_db0 (ndebug : bool) :
  reachable_all PI RU TWOPI SQRT2 0 ndebug root_default thermo db0.
Proof. apply reach_all_new. exact ExampleFacts.new_default. Qed.

Lemma group_Q11ei_db0 :
  group false "Q11ei" thermo db0 = Ok (0, ExampleCalls.db1).
Proof. vm_compute. reflexivity. Qed.

Lemma reach_all_db1 :
  reachable_all PI RU TWOPI SQRT2 0 false root_default thermo ExampleCalls.db1.
Proof.
  apply (reach_all_group _ _ _ _ _ _ _ _ db0 "Q11ei" thermo 0).
  - apply reach_all_db0.
  - split; reflexivity.
  - exact group_Q11ei_db0.
Qed.

Lemma thermo_ok_heavy : thermo_ok ExampleHeavy.thermo.
Proof. unfold thermo_ok, electrons, nSpecies. cbn. lia. Qed.

Lemma new_default_heavy : new root_default ExampleHeavy.thermo = Ok ExampleHeavy.db0.
Proof. vm_compute. reflexivity. Qed.

Lemma reach_all_heavy :
  reachable_all PI RU TWOPI SQRT2 0 false root_default ExampleHeavy.thermo
    ExampleHeavy.db0.
Proof. apply reach_all_new. exact new_default_heavy. Qed.

Lemma valid_Q22ii : valid_name "Q22ii" II.
Proof. split; [reflexivity | discriminate]. Qed.

Lemma valid_Q11ij : valid_name "Q11ij" IJ.
Proof. split; [reflexivity | discriminate]. Qed.

End ExtraFacts.

Lemma group_miss_kind_witness :
  "Q22ii" = "Q22" +:+ "ii" /\
  exists members db',
    group false "Q22ii" Example.thermo Example.db0 = Ok (0, db') /\
    length (m_group_nodes db') = 1 /\
    m_group_nodes db' !! 0
      = Some (update 1000%float Example.thermo
                (manage members "Q22" (CollisionGroup_new true 300 20000 100))).
Proof.
  exact (group_miss_kind Example.PI Example.RU Example.TWOPI Example.SQRT2 0 false
    Example.root_default Example.thermo Example.thermo Example.db0 "Q22ii" II
    ExampleFacts.thermo_ok_example (ExtraFacts.reach_all_db0 false)
    (conj eq_refl eq_refl) ExtraFacts.valid_Q22ii eq_refl).
Defined.

Lemma group_members_by_species_witness :
  exists kind members l db',
    group false "Q11ij" Example.thermo Example.db0 = Ok (l, db') /\
    m_group_nodes db' !! l
      = Some (update 1000%float Example.thermo
                (manage members kind (CollisionGroup_new true 300 20000 100))) /\
    Forall2 (is_pair Example.root_default Example.mixture) members
      [(1, 1); (1, 2); (2, 2)] /\
    length members = 3.
Proof.
  exact (group_members_by_species Example.PI Example.RU Example.TWOPI Example.SQRT2
    0 false Example.root_default Example.thermo Example.thermo Example.db0
    "Q11ij" IJ
    ExampleFacts.thermo_ok_example (ExtraFacts.reach_all_db0 false)
    (conj eq_refl eq_refl) ExtraFacts.valid_Q11ij eq_refl).
Defined.

Lemma group_ranges_partition_witness :
  exists ee ei ii ij,
    select_members EE "Q11ee" Example.thermo (m_pairs Example.db0) = Ok ee /\
    select_members EI "Q11ee" Example.thermo (m_pairs Example.db0) = Ok ei /\
    select_members II "Q11ee" Example.thermo (m_pairs Example.db0) = Ok ii /\
    select_members IJ "Q11ee" Example.thermo (m_pairs Example.db0) = Ok ij /\
    ei ++ ij = m_pairs Example.db0 /\
    ee = take 1 ei /\
    length ii = 2 /\
    ii !! 0 = ij !! 0 /\ ii !! 1 = ij !! 2.
Proof.
  destruct (group_ranges_partition Example.PI Example.RU Example.TWOPI
    Example.SQRT2 0 false Example.root_default Example.thermo Example.thermo
    Example.db0 "Q11ee"
    ExampleFacts.thermo_ok_example (ExtraFacts.reach_all_db0 false)
    (conj eq_refl eq_refl))
    as (ee & ei & ii & ij & H1 & H2 & H3 & H4 & H5 & H6 & H7 & H8).
  exists ee, ei, ii, ij. repeat split; try assumption.
  - exact (H8 0 ltac:(vm_compute; lia)).
  - exact (H8 1 ltac:(vm_compute; lia)).
Defined.

Lemma cache_names_own_nodes_witness :
  size (m_groups ExampleCalls.db1) = length (m_group_nodes ExampleCalls.db1) /\
  forall name l, m_groups ExampleCalls.db1 !! name = Some l ->
    is_Some (m_group_nodes ExampleCalls.db1 !! l) /\ exists t, valid_name name t.
Proof.
  destruct (cache_names_own_nodes Example.PI Example.RU Example.TWOPI
    Example.SQRT2 0 false Example.root_default Example.thermo ExampleCalls.db1
    ExampleFacts.thermo_ok_example ExtraFacts.reach_all_db1) as (_ & H2 & H3).
  split; [exact H2 | exact H3].
Defined.

Lemma group_changes_one_entry_witness :
  exists l db',
    group false "Q22ii" Example.thermo_hot ExampleCalls.db1 = Ok (l, db') /\
    m_groups db' !! "Q22ii" = Some l /\
    m_groups db' !! "Q11ei" = Some 0 /\
    m_group_nodes db' !! 0 = m_group_nodes ExampleCalls.db1 !! 0 /\
    m_pairs db' = m_pairs ExampleCalls.db1.
Proof.
  assert (H : exists l db',
    group false "Q22ii" Example.thermo_hot ExampleCalls.db1 = Ok (l, db'))
    by (eexists _, _; vm_compute; reflexivity).
  destruct H as (l & db' & H). exists l, db'. split; [exact H|].
  destruct (group_changes_one_entry Example.PI Example.RU Example.TWOPI
    Example.SQRT2 0 false Example.root_default Example.thermo Example.thermo_hot
    ExampleCalls.db1 db' "Q22ii" l
    ExampleFacts.thermo_ok_example ExtraFacts.reach_all_db1 H)
    as (H1 & H2 & _ & H4 & _).
  split; [exact H1|].
  destruct (H2 "Q11ei" ltac:(discriminate)) as [H5 H6].
  split; [rewrite H5; reflexivity|]. split; [exact (H6 0 eq_refl) | exact H4].
Defined.

Lemma tabulation_parameters_fixed_witness :
  m_tabulate ExampleCalls.db1 = true /\
  m_table_min ExampleCalls.db1 = 300%float /\
  m_table_max ExampleCalls.db1 = 20000%float /\
  m_table_del ExampleCalls.db1 = 100%float.
Proof.
  exact (tabulation_parameters_fixed Example.PI Example.RU Example.TWOPI
    Example.SQRT2 0 false Example.root_default Example.thermo ExampleCalls.db1
    ExampleFacts.thermo_ok_example ExtraFacts.reach_all_db1).
Defined.

Lemma Deifac_content_witness :
  exists s0,
    Example.mixture !! 0 = Some s0 /\
    length (m_Deifac ExampleCalls.db1) = 3 /\
    m_Deifac ExampleCalls.db1 !! 0
      = Some (3 / 16 * PrimFloat.sqrt (Example.TWOPI * Example.RU / sp_molecularWeight s0)
              * (2 / Example.SQRT2))%float /\
    forall i, 0 < i < 3 ->
      m_Deifac ExampleCalls.db1 !! i
      = Some (3 / 16 * PrimFloat.sqrt (Example.TWOPI * Example.RU
                                        / sp_molecularWeight s0))%float.
Proof.
  exact (Deifac_content Example.PI Example.RU Example.TWOPI Example.SQRT2 0 false
    Example.root_default Example.thermo ExampleCalls.db1
    ExampleFacts.thermo_ok_example ExtraFacts.reach_all_db1).
Defined.

Lemma Dijfac_aligned_witness :
  exists ij,
    select_members IJ "Q11ij" Example.thermo (m_pairs Example.db0) = Ok ij /\
    length (m_Dijfac Example.db0) = 3 /\
    Forall2 (fun v p =>
       let mi := sp_molecularWeight (pair_sp1 p) in
       let mj := sp_molecularWeight (pair_sp2 p) in
       v = (3 / 16 * PrimFloat.sqrt (Example.TWOPI * Example.RU * (mi + mj)
                                     / (mi * mj)))%float)
      (m_Dijfac Example.db0) ij.
Proof.
  exact (Dijfac_aligned Example.PI Example.RU Example.TWOPI Example.SQRT2 0 false
    Example.root_default Example.thermo Example.db0 "Q11ij"
    ExampleFacts.thermo_ok_example (ExtraFacts.reach_all_db0 false)).
Defined.

Lemma etafac_aligned_witness :
  exists ii,
    select_members II "Q22ii" Example.thermo (m_pairs Example.db0) = Ok ii /\
    Forall2 (fun v p =>
       pair_sp2 p = pair_sp1 p /\
       v = (5 / 16 * PrimFloat.sqrt (Example.PI * Example.RU
                                     * sp_molecularWeight (pair_sp1 p)))%float)
      (m_etafac Example.db0) ii.
Proof.
  exact (etafac_aligned Example.PI Example.RU Example.TWOPI Example.SQRT2 0 false
    Example.root_default Example.thermo Example.db0 "Q22ii"
    ExampleFacts.thermo_ok_example (ExtraFacts.reach_all_db0 false)).
Defined.

Lemma nDei_without_electrons_witness :
  nDei false ExampleHeavy.thermo ExampleHeavy.db0 = Ok ([], ExampleHeavy.db0).
Proof.
  exact (nDei_without_electrons Example.PI Example.RU Example.TWOPI Example.SQRT2
    0 false Example.root_default ExampleHeavy.thermo ExampleHeavy.thermo
    ExampleHeavy.db0 ExtraFacts.thermo_ok_heavy ExtraFacts.reach_all_heavy
    (conj eq_refl eq_refl) eq_refl).
Defined.

Lemma nDei_with_electrons_witness :
  exists v db',
    nDei false Example.thermo_hot ExampleCalls.db1 = Ok (v, db') /\
    length v = 3 /\
    v !! 0 = Some (PrimFloat.sqrt 9000
                   * (3 / 16 * PrimFloat.sqrt (Example.TWOPI * Example.RU
                                               / 5.4857990946e-7)
                      * (2 / Example.SQRT2)) / 9000)%float /\
    v !! 1 = Some (PrimFloat.sqrt 9000
                   * (3 / 16 * PrimFloat.sqrt (Example.TWOPI * Example.RU
                                               / 5.4857990946e-7)) / 9000)%float.
Proof.
  destruct (nDei_with_electrons Example.PI Example.RU Example.TWOPI Example.SQRT2
    0 false Example.root_default Example.thermo Example.thermo_hot ExampleCalls.db1
    ExampleFacts.thermo_ok_example ExtraFacts.reach_all_db1
    ExampleFacts.same_mixture_hot eq_refl)
    as (s0 & l & db1 & g0 & Hs & Hg & Hn & _ & Hv).
  inversion Hs; subst s0; clear Hs.
  assert (Hq : array (update (Te Example.thermo_hot) Example.thermo_hot g0)
               = [9000; 9000; 9000]%float).
  { vm_compute in Hg. inversion Hg; subst l db1; clear Hg.
    match type of Hn with
    | ?node = _ =>
        transitivity (match node with Some g => array g | None => [] end)
    end; [rewrite Hn; reflexivity | vm_compute; reflexivity]. }
  destruct (Hv ltac:(rewrite Hq; reflexivity)) as (v & He & Hl & Hi).
  exists v, (set_nDei v db1). split; [exact He|]. split; [exact Hl|]. split.
  - exact (Hi 0 9000%float ltac:(rewrite Hq; reflexivity)).
  - exact (Hi 1 9000%float ltac:(rewrite Hq; reflexivity)).
Defined.

Lemma nDij_formula_witness :
  exists v db',
    nDij false Example.thermo Example.db0 = Ok (v, db') /\
    length v = 3 /\
    v !! 1 = Some (PrimFloat.sqrt 1000
                   * (3 / 16 * PrimFloat.sqrt (Example.TWOPI * Example.RU
                                               * (0.0140067 + 0.0280134)
                                               / (0.0140067 * 0.0280134)))
                   / 1000)%float.
Proof.
  destruct (nDij_formula Example.PI Example.RU Example.TWOPI Example.SQRT2
    0 false Example.root_default Example.thermo Example.thermo Example.db0
    ExampleFacts.thermo_ok_example (ExtraFacts.reach_all_db0 false)
    (conj eq_refl eq_refl))
    as (l & db1 & g0 & Hg & Hn & _ & Hv).
  assert (Hq : array (update (T Example.thermo) Example.thermo g0)
               = [1000; 1000; 1000]%float).
  { vm_compute in Hg. inversion Hg; subst l db1; clear Hg.
    match type of Hn with
    | ?node = _ =>
        transitivity (match node with Some g => array g | None => [] end)
    end; [rewrite Hn; reflexivity | vm_compute; reflexivity]. }
  destruct (Hv ltac:(rewrite Hq; reflexivity)) as (v & He & Hl & Hi).
  exists v, (set_nDij v db1). split; [exact He|]. split; [exact Hl|].
  exact (Hi 1 (mkPair (mkSpecies "N" 0.0140067) (mkSpecies "N2" 0.0280134)
                 Example.root_default) 1000%float eq_refl
           ltac:(rewrite Hq; reflexivity)).
Defined.

Lemma accessors_touch_own_group_witness :
  exists v db',
    etai false Example.thermo_hot ExampleCalls.db1 = Ok (v, db') /\
    m_groups db' !! "Q11ei" = Some 0 /\
    m_group_nodes db' !! 0 = m_group_nodes ExampleCalls.db1 !! 0.
Proof.
  assert (H : exists v db',
    etai false Example.thermo_hot ExampleCalls.db1 = Ok (v, db'))
    by (eexists _, _; vm_compute; reflexivity).
  destruct H as (v & db' & H). exists v, db'. split; [exact H|].
  exact (accessors_touch_own_group Example.PI Example.RU Example.TWOPI
    Example.SQRT2 0 false Example.root_default Example.thermo Example.thermo_hot
    ExampleCalls.db1 db' v "Q22ii"
    ExampleFacts.thermo_ok_example ExtraFacts.reach_all_db1
    (or_introl (conj eq_refl H)) "Q11ei" 0 ltac:(discriminate) eq_refl).
Defined.

Lemma construction_result_witness :
  (exists db, Example.new Example.root_default Example.thermo = Ok db) /\
  m_groups Example.db0 = ∅ /\
  length (m_etafac Example.db0) = 2 /\
  length (m_Deifac Example.db0) = 3 /\
  length (m_Dijfac Example.db0) = 3.
Proof.
  destruct (construction_result (G:=Example.RecGroup) Example.PI Example.RU
    Example.TWOPI Example.SQRT2 0 Example.root_default Example.thermo
    ExampleFacts.thermo_ok_example) as (Hiff & Hsizes).
  split; [apply Hiff; vm_compute; reflexivity|].
  destruct (Hsizes Example.db0 ExampleFacts.new_default)
    as (H1 & _ & _ & H4 & _ & H6 & _ & H8 & _).
  repeat split; assumption.
Defined.
